(** * SquareWaveFitTest: exhaustive template fit of a sampled square wave

    A shallow embedding of [SquareWaveFitTest.C]: the square-wave sampler
    ([squarewave], [setbits]), the parameter check ([badParams]), the
    template enumeration of the constructor, the noise model ([setRandom]),
    the exhaustive search ([bestOverlap]) and the driver ([test]).

    C [float] and [double] values are IEEE 754 binary32 and binary64 numbers,
    taken from the Standard Library's [SpecFloat]; a [std::bitset<36>] is
    an integer below [2^36]; operations that can throw or run off the end of a
    vector return [option]. The arithmetic is evaluated as the program is
    compiled for x86-64: every operation is rounded to the type of its
    operands, with no excess precision. *)

From Stdlib Require Import ZArith QArith List Bool Lia.
From Stdlib Require Import Floats.SpecFloat.
Import ListNotations.
Local Open Scope Z_scope.

(** ** IEEE 754 arithmetic of the two C floating-point types *)

Module IEEE.

(** [float] is binary32 and [double] is binary64; both are carried by
    [spec_float], each in the canonical form of its own format. *)
Definition float := spec_float.
Definition double := spec_float.

Definition prec32 : Z := 24.
Definition emax32 : Z := 128.
Definition prec64 : Z := 53.
Definition emax64 : Z := 1024.

(** Rounding of an arbitrary finite value to a format (to nearest, ties to
    even); the other values are common to all formats. *)
Definition round_to (prec emax : Z) (x : spec_float) : spec_float :=
  match x with
  | S754_finite s m e => binary_round prec emax s m e
  | _ => x
  end.

(** Implicit conversions: [float] to [double] (exact), [double] to [float]
    (rounding), integer to [float] and to [double]. *)
Definition double_of_float (x : float) : double := round_to prec64 emax64 x.
Definition float_of_double (x : double) : float := round_to prec32 emax32 x.
Definition float_of_Z (z : Z) : float := binary_normalize prec32 emax32 z 0 false.
Definition double_of_Z (z : Z) : double := binary_normalize prec64 emax64 z 0 false.

Definition f32_add : float -> float -> float := SFadd prec32 emax32.
Definition f32_sub : float -> float -> float := SFsub prec32 emax32.
Definition f32_div : float -> float -> float := SFdiv prec32 emax32.
Definition f64_add : double -> double -> double := SFadd prec64 emax64.
Definition f64_sub : double -> double -> double := SFsub prec64 emax64.
Definition f64_div : double -> double -> double := SFdiv prec64 emax64.

(** Comparisons; a NaN operand makes each of them false. *)
Definition flt (x y : spec_float) : bool := SFltb x y.
Definition fle (x y : spec_float) : bool := SFleb x y.
Definition fgt (x y : spec_float) : bool := SFltb y x.
Definition fge (x y : spec_float) : bool := SFleb y x.

(** C's [fmod]: the remainder of the division truncated towards zero. It
    carries the sign of [x], is smaller than [y] in magnitude and is always
    exact, so the rounding performed by [binary_normalize] only brings the
    result to canonical form. *)
Definition SFfmod (prec emax : Z) (x y : spec_float) : spec_float :=
  match x, y with
  | S754_nan, _ | _, S754_nan => S754_nan
  | S754_infinity _, _ => S754_nan
  | _, S754_zero _ => S754_nan
  | S754_zero _, _ => x
  | S754_finite _ _ _, S754_infinity _ => x
  | S754_finite sx mx ex, S754_finite _ my ey =>
      let ez := Z.min ex ey in
      let ax := Zpos (fst (shl_align mx ex ez)) in
      let ay := Zpos (fst (shl_align my ey ez)) in
      binary_normalize prec emax (cond_Zopp sx (Z.rem ax ay)) ez sx
  end.

Definition f32_fmod : float -> float -> float := SFfmod prec32 emax32.

(** The literals of the program. *)
Definition d_zero : double := S754_zero false.
Definition d_half : double := binary_normalize prec64 emax64 1 (-1) false.
Definition d_one : double := double_of_Z 1.
Definition d_two : double := double_of_Z 2.
Definition f_zero : float := S754_zero false.
Definition f_one : float := float_of_Z 1.

End IEEE.
Import IEEE.

(** ** Machine integers *)

(** [unsigned] is 32 bits wide and [size_t] 64 bits wide; a conversion to
    either, and [size_t] subtraction, wrap around. *)
Definition to_unsigned (z : Z) : Z := z mod 2 ^ 32.
Definition to_size_t (z : Z) : Z := z mod 2 ^ 64.
Definition size_t_sub (a b : Z) : Z := to_size_t (a - b).

(** ** [std::bitset<nbits>] *)

Definition nbits : Z := 36.

Definition bset := Z.

(** Every [bset] the program holds has its bits below position [nbits]. *)
Definition bset_wf (b : bset) : Prop := 0 <= b < 2 ^ nbits.

(** A default-constructed bitset has all bits clear. *)
Definition bset_zero : bset := 0.

(** [test(pos)] and [set(pos, val)] throw [std::out_of_range] when
    [pos >= nbits]; that is [None] here. *)
Definition bset_test (b : bset) (pos : Z) : option bool :=
  if pos <? nbits then Some (Z.testbit b pos) else None.

Definition bset_set (b : bset) (pos : Z) (val : bool) : option bset :=
  if pos <? nbits
  then Some (if val then Z.setbit b pos else Z.clearbit b pos)
  else None.

Definition bset_xor (a b : bset) : bset := Z.lxor a b.

Fixpoint popcount_pos (p : positive) : Z :=
  match p with
  | xH => 1
  | xO q => popcount_pos q
  | xI q => 1 + popcount_pos q
  end.

(** [count()]: the number of bits set. *)
Definition bset_count (b : bset) : Z :=
  match b with
  | Zpos p => popcount_pos p
  | _ => 0
  end.

(** [operator~]: every one of the [nbits] bits flipped. *)
Definition bset_not (b : bset) : bset := Z.lxor b (2 ^ nbits - 1).

(** ** Control: [for] loops over an error-returning body *)

Fixpoint for_range {S : Type} (n : nat) (i : Z)
         (body : Z -> S -> option S) (s : S) : option S :=
  match n with
  | O => Some s
  | Datatypes.S n' =>
      match body i s with
      | Some s' => for_range n' (i + 1) body s'
      | None => None
      end
  end.

(** [for (i = lo; i < hi; i++) body]: the bound does not change while the
    loop runs, so the number of iterations is known on entry. *)
Definition for_loop {S : Type} (lo hi : Z)
           (body : Z -> S -> option S) (s : S) : option S :=
  for_range (Z.to_nat (hi - lo)) lo body s.

(** ** The square wave and its sampling *)

(** [squarewave(lambda, phase, width, x)]. The subtraction and the addition
    are [float] operations; [val >= 0.0] compares in [double]. *)
Definition squarewave (lambda phase width x : float) : bool :=
  let val := f32_fmod (f32_sub x phase) lambda in
  let val := if flt val (float_of_Z 0) then f32_add val lambda else val in
  fge (double_of_float val) d_zero && flt val width.

(** The sample centre [(float(ibit)+0.5)/float(nbits)]: the literal [0.5]
    makes the sum and the quotient [double] operations, and the
    initialisation of [float x] rounds the quotient. *)
Definition sample_center (ibit : Z) : float :=
  float_of_double
    (f64_div (f64_add (double_of_float (float_of_Z ibit)) d_half)
             (double_of_float (float_of_Z nbits))).

(** [setbits(bits, lambda, phase, width)] *)
Definition setbits (bits : bset) (lambda phase width : float) : option bset :=
  for_loop 0 nbits
    (fun ibit bits => bset_set bits ibit (squarewave lambda phase width (sample_center ibit)))
    bits.

(** ** The test object *)

(** ROOT's generator is outside the program: it is the sequence of values
    its successive [Uniform()] calls return, and the number of calls made. *)
Record TRandom3 := mkTRandom3 {
  stream : nat -> double;
  drawn : nat
}.

Definition Uniform (r : TRandom3) : double * TRandom3 :=
  (stream r (drawn r), mkTRandom3 (stream r) (S (drawn r))).

(** A ROOT histogram, as far as the program is concerned: the values filled
    in since it was booked or last reset. *)
Definition TH1F := list double.
Definition TH1F_Reset (h : TH1F) : TH1F := [].
Definition TH1F_Fill (h : TH1F) (x : double) : TH1F := h ++ [x].

Record SquareWaveFitTest := mkSquareWaveFitTest {
  _hover : TH1F;
  _hmod : TH1F;
  _hlambda : TH1F;
  _hphase : TH1F;
  _hwidth : TH1F;
  _hdur : TH1F;
  _bitmodels : list bset;
  _lvec : list float;
  _p0vec : list float;
  _fvec : list float;
  _rand : TRandom3;
  _fnbits : float
}.

Definition with_rand (this : SquareWaveFitTest) (r : TRandom3) : SquareWaveFitTest :=
  mkSquareWaveFitTest (_hover this) (_hmod this) (_hlambda this) (_hphase this)
    (_hwidth this) (_hdur this) (_bitmodels this) (_lvec this) (_p0vec this)
    (_fvec this) r (_fnbits this).

(** The four [push_back] calls of the constructor's innermost loop. *)
Definition push_model (this : SquareWaveFitTest) (bits : bset)
           (lambda phase width : float) : SquareWaveFitTest :=
  mkSquareWaveFitTest (_hover this) (_hmod this) (_hlambda this) (_hphase this)
    (_hwidth this) (_hdur this)
    (_bitmodels this ++ [bits]) (_lvec this ++ [lambda])
    (_p0vec this ++ [phase]) (_fvec this ++ [width])
    (_rand this) (_fnbits this).

(** The six [Reset] calls of [test]. *)
Definition reset_histograms (this : SquareWaveFitTest) : SquareWaveFitTest :=
  mkSquareWaveFitTest (TH1F_Reset (_hover this)) (TH1F_Reset (_hmod this))
    (TH1F_Reset (_hlambda this)) (TH1F_Reset (_hphase this))
    (TH1F_Reset (_hwidth this)) (TH1F_Reset (_hdur this))
    (_bitmodels this) (_lvec this) (_p0vec this) (_fvec this)
    (_rand this) (_fnbits this).

(** The six [Fill] calls of one trial. *)
Definition fill_histograms (this : SquareWaveFitTest)
           (dur over mod_ lam pha wid : double) : SquareWaveFitTest :=
  mkSquareWaveFitTest (TH1F_Fill (_hover this) over) (TH1F_Fill (_hmod this) mod_)
    (TH1F_Fill (_hlambda this) lam) (TH1F_Fill (_hphase this) pha)
    (TH1F_Fill (_hwidth this) wid) (TH1F_Fill (_hdur this) dur)
    (_bitmodels this) (_lvec this) (_p0vec this) (_fvec this)
    (_rand this) (_fnbits this).

(** [v[i]] on a [std::vector]: reading past the end is undefined, [None]. *)
Definition vector_at {A : Type} (v : list A) (i : Z) : option A :=
  if i <? 0 then None else nth_error v (Z.to_nat i).

Notation "x <- c1 ;; c2" :=
  (match c1 with Some x => c2 | None => None end)
    (at level 61, c1 at next level, right associativity).
Notation "' pat <- c1 ;; c2" :=
  (match c1 with Some pat => c2 | None => None end)
    (at level 61, pat pattern, c1 at next level, right associativity).

(** *** [badParams] *)

(** The literals [2.0], [0.5], [0.0] and [1.0] are [double], so every
    comparison but [phase > lambda] is made in [double], and so are the two
    quotients and the difference. *)
Definition badParams (this : SquareWaveFitTest) (lambda phase width : float) : bool :=
  flt (double_of_float lambda) (f64_div d_two (double_of_float (_fnbits this)))
  || fgt (double_of_float lambda) d_half
  || flt (double_of_float phase) d_zero
  || fgt phase lambda
  || flt (double_of_float width) (f64_div d_one (double_of_float (_fnbits this)))
  || fgt (double_of_float width)
         (f64_sub (double_of_float lambda)
                  (f64_div d_one (double_of_float (_fnbits this)))).

(** *** The constructor *)

(** The members as they are before the enumeration: histograms booked and
    empty, vectors empty, the generator seeded, [_fnbits(nbits)]. The seeded
    generator [TRandom3(1238123)] is the argument [rand]. The [reserve]
    calls do not change what the vectors hold. *)
Definition init_members (rand : TRandom3) : SquareWaveFitTest :=
  mkSquareWaveFitTest [] [] [] [] [] [] [] [] [] [] rand (float_of_Z nbits).

(** The exhaustive loop over reasonable models. [iphase <= (int)ilambda] is
    the bound [ilambda + 1]; [ilambda-1] is a [size_t] difference. *)
Definition build_models (this : SquareWaveFitTest) : option SquareWaveFitTest :=
  for_loop 2 (nbits / 2)
    (fun ilambda this =>
       let lambda := f32_div (float_of_Z ilambda) (_fnbits this) in
       for_loop 0 (ilambda + 1)
         (fun iphase this =>
            let phase := f32_div (float_of_Z iphase) (_fnbits this) in
            for_loop 1 (size_t_sub ilambda 1)
              (fun iwidth this =>
                 let width := f32_div (float_of_Z iwidth) (_fnbits this) in
                 bits <- setbits bset_zero lambda phase width ;;
                 Some (push_model this bits lambda phase width))
              this)
         this)
    this.

Definition SquareWaveFitTest_new (rand : TRandom3) : option SquareWaveFitTest :=
  build_models (init_members rand).

(** *** [bestOverlap] *)

(** The result is the pair of the returned index and of [bover], the
    reference argument, which the function overwrites on entry. Both are
    [unsigned]; [imodel] and [overlap] are [size_t]. *)
Definition bestOverlap (this : SquareWaveFitTest) (test : bset) : option (Z * Z) :=
  for_loop 0 (Z.of_nat (length (_bitmodels this)))
    (fun imodel '(retval, bover) =>
       m <- vector_at (_bitmodels this) imodel ;;
       let overlap := bset_count (bset_xor m test) in
       if overlap <? bover
       then Some (to_unsigned imodel, to_unsigned overlap)
       else Some (retval, bover))
    (0, to_unsigned nbits).

(** *** [setRandom] *)

(** The result is the new content of [rbits] and the object, whose generator
    has advanced. *)
Definition setRandom (this : SquareWaveFitTest) (model rbits : bset)
           (eff pur : float) : option (bset * SquareWaveFitTest) :=
  for_loop 0 nbits
    (fun ibit '(rbits, this) =>
       let '(rval, rand') := Uniform (_rand this) in
       b <- bset_test model ibit ;;
       rbits' <- (if b
                  then bset_set rbits ibit (flt rval (double_of_float eff))
                  else bset_set rbits ibit (fgt rval (double_of_float pur))) ;;
       Some (rbits', with_rand this rand'))
    (rbits, this).

(** *** [test] *)

(** What a run of [test] does that can be seen from outside the object: the
    lines it writes to [std::cout] and the calls it makes to the encoder,
    the noise model and the search. *)
Inductive event :=
| Cout_illegal_values
| Cout_model (model : bset)
| Cout_template_match (imod bover : Z) (bits : bset)
| Cout_random_profile (rbits : bset)
| Cout_random_match (imod bover : Z) (bits : bset)
| Call_setbits (lambda phase width : float)
| Call_bestOverlap (test : bset)
| Call_setRandom (model : bset) (eff pur : float).

(** The locals of the trial loop together with the object. *)
Record trial_state := mkTrial {
  t_this : SquareWaveFitTest;
  t_rbits : bset;
  t_imod : Z;
  t_bover : Z;
  t_trace : list event
}.

(** One iteration of the high-statistics loop. [clock itrial] is the
    duration in microseconds that the two [high_resolution_clock::now()]
    calls of the iteration measure. *)
Definition trial (clock : Z -> Z) (model : bset) (eff pur : float)
           (itrial : Z) (st : trial_state) : option trial_state :=
  '(rbits, this) <- setRandom (t_this st) model (t_rbits st) eff pur ;;
  '(imod, bover) <- bestOverlap this rbits ;;
  lam <- vector_at (_lvec this) imod ;;
  pha <- vector_at (_p0vec this) imod ;;
  wid <- vector_at (_fvec this) imod ;;
  Some (mkTrial
          (fill_histograms this (double_of_Z (clock itrial)) (double_of_Z bover)
             (double_of_Z imod) (double_of_float lam) (double_of_float pha)
             (double_of_float wid))
          rbits imod bover
          (t_trace st ++ [Call_setRandom model eff pur; Call_bestOverlap rbits])).

(** The result is the returned [int], the object afterwards and the trace. *)
Definition test (this : SquareWaveFitTest) (clock : Z -> Z)
           (lambda phase width eff pur : float) (ntrials : Z)
  : option (Z * SquareWaveFitTest * list event) :=
  if badParams this lambda phase width
  then Some (-1, this, [Cout_illegal_values])
  else
    model <- setbits bset_zero lambda phase width ;;
    '(imod, bover) <- bestOverlap this model ;;
    bits <- vector_at (_bitmodels this) imod ;;
    let tr := [Call_setbits lambda phase width; Cout_model model;
               Call_bestOverlap model; Cout_template_match imod bover bits] in
    '(rbits, this) <- setRandom this model bset_zero eff pur ;;
    '(imod, bover) <- bestOverlap this rbits ;;
    bits <- vector_at (_bitmodels this) imod ;;
    let tr := tr ++ [Call_setRandom model eff pur; Cout_random_profile rbits;
                     Call_bestOverlap rbits; Cout_random_match imod bover bits] in
    st <- for_loop 0 ntrials (trial clock model eff pur)
            (mkTrial (reset_histograms this) rbits imod bover tr) ;;
    Some (0, t_this st, t_trace st).

(** ** Notions of the specification and of the proofs *)

(** The Hamming distance of the search: popcount(observation XOR template). *)
Definition hamming (observation template : bset) : Z :=
  bset_count (bset_xor observation template).

(** The integers from [lo] through [hi], both included. *)
Definition through (lo hi : Z) : list Z :=
  map (fun k => lo + Z.of_nat k) (seq 0 (Z.to_nat (hi + 1 - lo))).

(** The index steps of the library: wavelength steps from 2 through
    [N/2 - 1], for each the phase steps from 0 through the wavelength step,
    for each the width steps from 1 through the wavelength step minus 2. *)
Definition enumeration (N : Z) : list (Z * Z * Z) :=
  flat_map
    (fun il =>
       flat_map
         (fun ip => map (fun iw => (il, ip, iw)) (through 1 (il - 2)))
         (through 0 il))
    (through 2 (N / 2 - 1)).

(** The sum over the wavelength steps [lo .. hi] of (step + 1) * (step - 2). *)
Definition size_sum (lo hi : Z) : Z :=
  fold_right Z.add 0 (map (fun il => (il + 1) * (il - 2)) (through lo hi)).

(** The parameters of an index triple: each step divided by [N], in [float]. *)
Definition step_lambda (t : Z * Z * Z) : float :=
  f32_div (float_of_Z (fst (fst t))) (float_of_Z nbits).
Definition step_phase (t : Z * Z * Z) : float :=
  f32_div (float_of_Z (snd (fst t))) (float_of_Z nbits).
Definition step_width (t : Z * Z * Z) : float :=
  f32_div (float_of_Z (snd t)) (float_of_Z nbits).

(** A generator that returns the same value at every call. *)
Definition constant_generator (x : double) : TRandom3 := mkTRandom3 (fun _ => x) 0.

(** The object after [n] calls of [Uniform] on its generator. *)
Fixpoint after_draws (n : nat) (this : SquareWaveFitTest) : SquareWaveFitTest :=
  match n with
  | O => this
  | Datatypes.S n' =>
      let t := after_draws n' this in with_rand t (snd (Uniform (_rand t)))
  end.

(** The draw that [setRandom] consumes for bit [k]. *)
Definition draw_for (this : SquareWaveFitTest) (k : Z) : double :=
  stream (_rand this) (drawn (_rand this) + Z.to_nat k)%nat.

(** What the scan of [bestOverlap] knows after the templates below [j]:
    [bover] bounds their distances from below, and [retval] is the [unsigned]
    conversion of an index [first] such that either nothing beat the initial
    [nbits] and [first] is 0, or [first] is the first template at distance
    [bover]. *)
Definition scanned (this : SquareWaveFitTest) (test : bset) (j : Z) (st : Z * Z) : Prop :=
  let '(retval, bover) := st in
  0 <= bover <= nbits /\
  (forall k m, 0 <= k < j -> vector_at (_bitmodels this) k = Some m ->
               bover <= hamming test m) /\
  exists first,
    retval = to_unsigned first /\
    ((first = 0 /\ bover = nbits) \/
     (0 <= first < j /\
      (exists m, vector_at (_bitmodels this) first = Some m /\ hamming test m = bover) /\
      (forall k m, 0 <= k < first -> vector_at (_bitmodels this) k = Some m ->
                   bover < hamming test m))).

(** One template with its parameters, as the innermost loop body of the
    constructor pushes it to the four vectors. *)
Definition entry : Type := bset * float * float * float.

Definition push_entry (this : SquareWaveFitTest) (e : entry) : SquareWaveFitTest :=
  let '(bits, lambda, phase, width) := e in push_model this bits lambda phase width.

Definition push_all (this : SquareWaveFitTest) (es : list entry) : SquareWaveFitTest :=
  fold_left push_entry es this.

(** The template of a parameter triple: [setbits] on a fresh bitset. *)
Definition encode (lambda phase width : float) : bset :=
  match setbits bset_zero lambda phase width with
  | Some bits => bits
  | None => bset_zero
  end.

Definition step_entry (t : Z * Z * Z) : entry :=
  (encode (step_lambda t) (step_phase t) (step_width t),
   step_lambda t, step_phase t, step_width t).

(** The square-wave rule in exact arithmetic, for the parameters of an index
    triple: with x = (i + 1/2)/N, phase = ip/N, lambda = il/N and
    width = iw/N, the remainder of x - phase modulo lambda, taken in
    [0, lambda), is below width exactly when (2i + 1 - 2ip) mod 2il < 2iw. *)
Definition exact_rule (t : Z * Z * Z) (i : Z) : bool :=
  let '(il, ip, iw) := t in
  (2 * i + 1 - 2 * ip) mod (2 * il) <? 2 * iw.

(** The sample centres of the [nbits] samples, evaluated once and for all. *)
Definition sample_centers : list (Z * float) :=
  Eval vm_compute in map (fun i => (i, sample_center i)) (through 0 (nbits - 1)).

(** The program's rule and the exact one agree at a sample. *)
Definition agrees_at (t : Z * Z * Z) (lambda phase width : float) (ic : Z * float) : bool :=
  Bool.eqb (squarewave lambda phase width (snd ic)) (exact_rule t (fst ic)).

(** The events of a trace that are calls to the encoder, the noise model or
    the search. *)
Definition is_call (e : event) : bool :=
  match e with
  | Call_setbits _ _ _ | Call_bestOverlap _ | Call_setRandom _ _ _ => true
  | _ => false
  end.

(** An object on which nothing has been built yet, and the wavelength and the
    width of the smallest legal triple for [nbits = 36]: 2/36 and 1/36, with
    phase 0. *)
Definition fresh : SquareWaveFitTest := init_members (constant_generator d_zero).
Definition lambda_min : float := f32_div (float_of_Z 2) (float_of_Z nbits).
Definition width_min : float := f32_div (float_of_Z 1) (float_of_Z nbits).

(** The number of set bits among the [n] lowest, counted bit by bit. *)
Fixpoint bits_sum (n : nat) (b : Z) : Z :=
  match n with
  | O => 0
  | Datatypes.S n' => Z.b2z (Z.odd b) + bits_sum n' (Z.div2 b)
  end.

(** Two objects hold the same library: the four vectors and [_fnbits]. *)
Definition same_library (this that : SquareWaveFitTest) : Prop :=
  _bitmodels that = _bitmodels this /\
  _lvec that = _lvec this /\
  _p0vec that = _p0vec this /\
  _fvec that = _fvec this /\
  _fnbits that = _fnbits this.

(** The state of the vectors that [test] relies on: the library is not
    empty, its templates are well formed and can be indexed by an
    [unsigned], and the three parameter vectors are as long as it is. *)
Definition consistent (this : SquareWaveFitTest) : Prop :=
  _bitmodels this <> [] /\
  Forall bset_wf (_bitmodels this) /\
  Z.of_nat (length (_bitmodels this)) <= 2 ^ 32 /\
  length (_lvec this) = length (_bitmodels this) /\
  length (_p0vec this) = length (_bitmodels this) /\
  length (_fvec this) = length (_bitmodels this).

(** Each of the six histograms has been filled [n] times since its last
    reset. *)
Definition filled (this : SquareWaveFitTest) (n : nat) : Prop :=
  length (_hover this) = n /\ length (_hmod this) = n /\
  length (_hlambda this) = n /\ length (_hphase this) = n /\
  length (_hwidth this) = n /\ length (_hdur this) = n.

(** Two objects hold the same histograms. *)
Definition same_histograms (this that : SquareWaveFitTest) : Prop :=
  _hover that = _hover this /\ _hmod that = _hmod this /\
  _hlambda that = _hlambda this /\ _hphase that = _hphase this /\
  _hwidth that = _hwidth this /\ _hdur that = _hdur this.

(** The position of the first occurrence of an index triple in a list. *)
Definition triple_eqb (t u : Z * Z * Z) : bool :=
  (fst (fst t) =? fst (fst u)) && (snd (fst t) =? snd (fst u)) && (snd t =? snd u).

Fixpoint index_of (t : Z * Z * Z) (l : list (Z * Z * Z)) : option nat :=
  match l with
  | [] => None
  | u :: l' => if triple_eqb t u then Some O
               else option_map Datatypes.S (index_of t l')
  end.

(** Every triple of the list whose phase step is its wavelength step comes
    after the triple with the same wavelength and width steps and phase
    step 0; [k] is the position of the head of [l] in [all]. *)
Fixpoint wrapped_after_zero (all : list (Z * Z * Z)) (k : nat) (l : list (Z * Z * Z)) : bool :=
  match l with
  | [] => true
  | t :: l' =>
      (if snd (fst t) =? fst (fst t)
       then match index_of (fst (fst t), 0, snd t) all with
            | Some j => (j <? k)%nat
            | None => false
            end
       else true)
      && wrapped_after_zero all (Datatypes.S k) l'
  end.

(** The real number that a finite floating-point value stands for. *)
Definition SF2Q (x : spec_float) : option Q :=
  match x with
  | S754_zero _ => Some (0 # 1)
  | S754_finite s m e => Some (Qmult (inject_Z (cond_Zopp s (Zpos m))) (Qpower (2 # 1) e))
  | _ => None
  end.

Definition Qltb (a b : Q) : bool :=
  Qnum a * Zpos (Qden b) <? Qnum b * Zpos (Qden a).

(** The remainder of the division of [a] by [b] truncated towards zero, on
    rational numbers: what [fmod] computes on the reals. *)
Definition Qfmod (a b : Q) : Q :=
  let q := Qdiv a b in
  Qminus a (Qmult b (inject_Z (Z.quot (Qnum q) (Zpos (Qden q))))).

(** The square-wave rule of the specification in exact arithmetic: with
    x = (i + 0.5)/N and val = (x - phase) mod lambda, increased by lambda
    when negative, the bit is set when 0 <= val < width. *)
Definition exact_square_wave (N : Z) (lambda phase width : Q) (i : Z) : bool :=
  let x := Qdiv (Qplus (inject_Z i) (1 # 2)) (inject_Z N) in
  let val := Qfmod (Qminus x phase) lambda in
  let val := if Qltb val (0 # 1) then Qplus val lambda else val in
  Qle_bool (0 # 1) val && Qltb val width.

(** The exact rule at the real values of three [float] parameters. *)
Definition exact_rule_of_floats (lambda phase width : float) (i : Z) : option bool :=
  match SF2Q lambda, SF2Q phase, SF2Q width with
  | Some ql, Some qp, Some qw => Some (exact_square_wave nbits ql qp qw i)
  | _, _, _ => None
  end.

(** The program's rule and the exact rule at the real values of the
    parameters agree at a sample, and at all samples of an index triple. *)
Definition agrees_exactly (ql qp qw : Q) (lambda phase width : float)
           (ic : Z * float) : bool :=
  Bool.eqb (squarewave lambda phase width (snd ic))
           (exact_square_wave nbits ql qp qw (fst ic)).

Definition exact_on (t : Z * Z * Z) : bool :=
  match SF2Q (step_lambda t), SF2Q (step_phase t), SF2Q (step_width t) with
  | Some ql, Some qp, Some qw =>
      forallb (agrees_exactly ql qp qw (step_lambda t) (step_phase t) (step_width t))
              sample_centers
  | _, _, _ => false
  end.

(** A legal triple off the grid of the library: the wavelength 6/36, phase
    0, and the width that the [double] quotient 1.5/36 gives as a [float]. *)
Definition lambda_off_grid : float := f32_div (float_of_Z 6) (float_of_Z nbits).
Definition width_off_grid : float :=
  float_of_double
    (f64_div (binary_normalize prec64 emax64 3 (-1) false) (double_of_Z nbits)).

(** ** Bitsets *)

Section Bitsets.

Lemma nbits_nonneg : 0 <= nbits.
Proof. unfold nbits; lia. Qed.

Lemma bset_wf_bits (b : bset) :
  bset_wf b <-> 0 <= b /\ forall k, nbits <= k -> Z.testbit b k = false.
Proof.
  unfold bset_wf. split.
  - intros [H0 H1]. split; [exact H0|]. intros k Hk.
    rewrite <- (Z.mod_small b (2 ^ nbits)) by lia.
    apply Z.mod_pow2_bits_high. pose proof nbits_nonneg. lia.
  - intros [H0 H1]. split; [exact H0|].
    assert (E : b = b mod 2 ^ nbits).
    { apply Z.bits_inj'. intros k Hk.
      destruct (Z.lt_ge_cases k nbits) as [Hlt | Hge].
      - now rewrite Z.mod_pow2_bits_low.
      - rewrite Z.mod_pow2_bits_high by (pose proof nbits_nonneg; lia).
        now apply H1. }
    rewrite E. apply Z.mod_pos_bound. apply Z.pow_pos_nonneg; [lia | apply nbits_nonneg].
Qed.

Lemma bset_wf_zero : bset_wf bset_zero.
Proof. unfold bset_wf, bset_zero, nbits. lia. Qed.

Lemma bset_wf_ext (a b : bset) :
  bset_wf a -> bset_wf b ->
  (forall k, 0 <= k < nbits -> Z.testbit a k = Z.testbit b k) -> a = b.
Proof.
  intros Ha Hb H. apply bset_wf_bits in Ha, Hb.
  destruct Ha as [_ Ha], Hb as [_ Hb].
  apply Z.bits_inj'. intros k Hk.
  destruct (Z.lt_ge_cases k nbits) as [Hlt | Hge].
  - apply H; lia.
  - now rewrite Ha, Hb.
Qed.

Lemma bset_wf_xor (a b : bset) : bset_wf a -> bset_wf b -> bset_wf (bset_xor a b).
Proof.
  intros Ha Hb. apply bset_wf_bits in Ha, Hb. apply bset_wf_bits.
  destruct Ha as [Ha0 Ha], Hb as [Hb0 Hb]. unfold bset_xor. split.
  - apply Z.lxor_nonneg. tauto.
  - intros k Hk. now rewrite Z.lxor_spec, Ha, Hb.
Qed.

Lemma bset_set_wf (b b' : bset) (pos : Z) (v : bool) :
  0 <= pos -> bset_wf b -> bset_set b pos v = Some b' -> bset_wf b'.
Proof.
  intros Hpos Hb. unfold bset_set.
  destruct (pos <? nbits) eqn:E; [|discriminate].
  apply Z.ltb_lt in E. intros [= <-].
  apply bset_wf_bits in Hb. destruct Hb as [Hb0 Hb]. apply bset_wf_bits.
  destruct v.
  - split.
    + unfold Z.setbit. apply Z.lor_nonneg. split; [exact Hb0|].
      apply Z.shiftl_nonneg; lia.
    + intros k Hk. rewrite Z.setbit_neq by lia. now apply Hb.
  - split.
    + unfold Z.clearbit. apply Z.ldiff_nonneg. now left.
    + intros k Hk. rewrite Z.clearbit_neq by lia. now apply Hb.
Qed.

Lemma bset_set_bits (b b' : bset) (pos : Z) (v : bool) :
  0 <= pos -> bset_set b pos v = Some b' ->
  forall k, 0 <= k -> Z.testbit b' k = if k =? pos then v else Z.testbit b k.
Proof.
  intros Hpos. unfold bset_set.
  destruct (pos <? nbits); [|discriminate]. intros [= <-] k Hk.
  destruct (Z.eqb_spec k pos) as [-> | Hne].
  - destruct v; [apply Z.setbit_eq | apply Z.clearbit_eq]; lia.
  - destruct v; [apply Z.setbit_neq | apply Z.clearbit_neq]; lia.
Qed.

Lemma popcount_pos_positive (p : positive) : 1 <= popcount_pos p.
Proof. induction p; cbn [popcount_pos]; lia. Qed.

Lemma popcount_pos_size (p : positive) : popcount_pos p <= Zpos (Pos.size p).
Proof.
  induction p; cbn [popcount_pos Pos.size]; rewrite ?Pos2Z.inj_succ; lia.
Qed.

Lemma bset_count_nonneg (b : bset) : 0 <= bset_count b.
Proof. destruct b; simpl; try lia. pose proof (popcount_pos_positive p). lia. Qed.

Lemma bset_count_bound (b : bset) : bset_wf b -> bset_count b <= nbits.
Proof.
  unfold bset_wf. destruct b as [|p|p]; cbn [bset_count]; intros [H0 H1];
    try (pose proof nbits_nonneg; lia).
  pose proof (popcount_pos_size p) as Hs.
  assert (Hle : Zpos (2 ^ Pos.size p) <= Zpos p~0) by exact (Pos.size_le p).
  rewrite Pos2Z.inj_pow in Hle. change (Zpos p~0) with (2 * Zpos p) in Hle.
  assert (Hlt : Zpos (Pos.size p) < nbits + 1).
  { apply (Z.pow_lt_mono_r_iff 2); [lia | pose proof nbits_nonneg; lia |].
    rewrite Z.pow_add_r by (pose proof nbits_nonneg; lia).
    change (2 ^ 1) with 2. lia. }
  lia.
Qed.

Lemma bset_count_zero (b : bset) : 0 <= b -> (bset_count b = 0 <-> b = 0).
Proof.
  destruct b as [|p|p]; simpl; intros H; split; intros E; try lia; try discriminate.
  pose proof (popcount_pos_positive p). lia.
Qed.

Lemma hamming_nonneg (a b : bset) : 0 <= hamming a b.
Proof. apply bset_count_nonneg. Qed.

Lemma hamming_bound (a b : bset) : bset_wf a -> bset_wf b -> hamming a b <= nbits.
Proof. intros Ha Hb. apply bset_count_bound, bset_wf_xor; assumption. Qed.

Lemma hamming_sym (a b : bset) : hamming a b = hamming b a.
Proof. unfold hamming, bset_xor. now rewrite Z.lxor_comm. Qed.

Lemma hamming_zero (a b : bset) :
  bset_wf a -> bset_wf b -> (hamming a b = 0 <-> a = b).
Proof.
  intros Ha Hb. unfold hamming.
  rewrite bset_count_zero by (apply bset_wf_xor; assumption).
  unfold bset_xor. apply Z.lxor_eq_0_iff.
Qed.

Lemma bset_count_step (b : bset) :
  0 <= b -> bset_count b = Z.b2z (Z.odd b) + bset_count (Z.div2 b).
Proof.
  destruct b as [|p|p]; intros H; [reflexivity| |lia].
  destruct p; cbn [bset_count popcount_pos Z.odd Z.div2 Z.b2z]; try reflexivity.
Qed.

Lemma bset_count_bits_sum (n : nat) :
  forall b, 0 <= b < 2 ^ Z.of_nat n -> bset_count b = bits_sum n b.
Proof.
  induction n as [|n IH]; intros b Hb.
  - change (2 ^ Z.of_nat 0) with 1 in Hb. now replace b with 0 by lia.
  - rewrite bset_count_step by lia. cbn [bits_sum]. f_equal. apply IH.
    rewrite Z.div2_div. rewrite Nat2Z.inj_succ, Z.pow_succ_r in Hb by lia.
    split; [apply Z.div_pos; lia | apply Z.div_lt_upper_bound; lia].
Qed.

Lemma bits_sum_triangle (n : nat) :
  forall a b c,
    bits_sum n (Z.lxor a c) <= bits_sum n (Z.lxor a b) + bits_sum n (Z.lxor b c).
Proof.
  induction n as [|n IH]; intros a b c; cbn [bits_sum]; [lia|].
  rewrite !Z.div2_spec, !Z.shiftr_lxor, <- !Z.bit0_odd, !Z.lxor_spec.
  specialize (IH (Z.shiftr a 1) (Z.shiftr b 1) (Z.shiftr c 1)).
  destruct (Z.testbit a 0), (Z.testbit b 0), (Z.testbit c 0); cbn [xorb Z.b2z]; lia.
Qed.

Lemma hamming_triangle (a b c : bset) :
  bset_wf a -> bset_wf b -> bset_wf c ->
  hamming a c <= hamming a b + hamming b c.
Proof.
  intros Ha Hb Hc. unfold hamming.
  rewrite !(bset_count_bits_sum (Z.to_nat nbits))
    by (apply bset_wf_xor; assumption).
  apply bits_sum_triangle.
Qed.

End Bitsets.

(** ** Loops *)

Section Loops.

Context {S : Type}.
Variable body : Z -> S -> option S.

(** The invariant rule: a property indexed by the loop counter that holds on
    entry and that every iteration carries over holds on exit, and the loop
    does return. *)
Lemma for_range_invariant (P : Z -> S -> Prop) :
  forall n i s,
    P i s ->
    (forall j t, i <= j < i + Z.of_nat n -> P j t ->
                 exists t', body j t = Some t' /\ P (j + 1) t') ->
    exists s', for_range n i body s = Some s' /\ P (i + Z.of_nat n) s'.
Proof.
  induction n as [|n IH]; intros i s Hs Hstep.
  - exists s. split; [reflexivity|]. now replace (i + Z.of_nat 0) with i by lia.
  - destruct (Hstep i s ltac:(lia) Hs) as (t & Hb & Ht).
    destruct (IH (i + 1) t Ht) as (s' & Hr & Hs').
    + intros j u Hj. apply Hstep. lia.
    + exists s'. cbn [for_range]. rewrite Hb. split; [exact Hr|].
      now replace (i + Z.of_nat (Datatypes.S n)) with (i + 1 + Z.of_nat n) by lia.
Qed.

Lemma for_loop_invariant (P : Z -> S -> Prop) (lo hi : Z) (s : S) :
  lo <= hi ->
  P lo s ->
  (forall j t, lo <= j < hi -> P j t ->
               exists t', body j t = Some t' /\ P (j + 1) t') ->
  exists s', for_loop lo hi body s = Some s' /\ P hi s'.
Proof.
  intros Hle Hs Hstep. unfold for_loop.
  destruct (for_range_invariant P (Z.to_nat (hi - lo)) lo s Hs) as (s' & Hr & Hs').
  - intros j t Hj. apply Hstep. lia.
  - exists s'. split; [exact Hr|].
    replace (lo + Z.of_nat (Z.to_nat (hi - lo))) with hi in Hs' by lia. exact Hs'.
Qed.

Lemma for_loop_skip (lo hi : Z) (s : S) : hi <= lo -> for_loop lo hi body s = Some s.
Proof.
  intros H. unfold for_loop. now replace (Z.to_nat (hi - lo)) with O by lia.
Qed.

End Loops.

(** ** Floating-point comparisons *)

Section Comparisons.

Lemma SFcompare_antisym (x y : spec_float) :
  SFcompare y x = option_map CompOpp (SFcompare x y).
Proof.
  destruct x as [sx|sx| |sx mx ex], y as [sy|sy| |sy my ey]; cbn [SFcompare option_map];
    try reflexivity;
    try (destruct sx; reflexivity); try (destruct sy; reflexivity);
    try (destruct sx, sy; reflexivity).
  pose proof (Pos.compare_cont_antisym mx my Eq) as Hm. cbn [CompOpp] in Hm.
  destruct sx, sy; cbn [CompOpp]; try reflexivity;
    rewrite (Z.compare_antisym ex ey); destruct (ex ?= ey); cbn [CompOpp];
    try reflexivity; now rewrite Hm.
Qed.

Lemma flt_asym (x y : spec_float) : flt x y = true -> flt y x = false.
Proof.
  unfold flt, SFltb. rewrite (SFcompare_antisym x y).
  destruct (SFcompare x y) as [[ | | ]|]; cbn; congruence.
Qed.

Lemma fle_not_flt (x y : spec_float) : fle x y = true -> flt y x = false.
Proof.
  unfold fle, flt, SFleb, SFltb. rewrite (SFcompare_antisym x y).
  destruct (SFcompare x y) as [[ | | ]|]; cbn; congruence.
Qed.

Lemma fgt_flt (x y : spec_float) : fgt x y = flt y x.
Proof. reflexivity. Qed.

Lemma double_of_float_one : double_of_float f_one = d_one.
Proof. reflexivity. Qed.

Lemma double_of_float_zero : double_of_float f_zero = d_zero.
Proof. reflexivity. Qed.

End Comparisons.

(** ** Vectors *)

Lemma Some_inj {A : Type} (x y : A) : Some x = Some y -> x = y.
Proof. now intros [= ->]. Qed.

Section Vectors.

Context {A : Type}.

Lemma vector_at_range (v : list A) (i : Z) (x : A) :
  vector_at v i = Some x -> 0 <= i < Z.of_nat (length v).
Proof.
  unfold vector_at. destruct (Z.ltb_spec i 0) as [H|H]; [discriminate|].
  intros E. assert (Hn : nth_error v (Z.to_nat i) <> None) by congruence.
  apply nth_error_Some in Hn. lia.
Qed.

Lemma vector_at_inside (v : list A) (i : Z) :
  0 <= i < Z.of_nat (length v) -> exists x, vector_at v i = Some x.
Proof.
  intros H. unfold vector_at. destruct (Z.ltb_spec i 0) as [H0|H0]; [lia|].
  destruct (nth_error v (Z.to_nat i)) as [x|] eqn:E; [now exists x|].
  apply nth_error_None in E. lia.
Qed.

Lemma vector_at_In (v : list A) (i : Z) (x : A) : vector_at v i = Some x -> In x v.
Proof.
  unfold vector_at. destruct (i <? 0); [discriminate|]. apply nth_error_In.
Qed.

Lemma vector_at_map {B : Type} (f : A -> B) (v : list A) (i : Z) :
  vector_at (map f v) i = option_map f (vector_at v i).
Proof.
  unfold vector_at. destruct (i <? 0); [reflexivity|]. apply nth_error_map.
Qed.

End Vectors.

(** ** The encoder *)

Section Encoder.

Variables lambda phase width : float.

(** [setbits] returns, writes every bit below [nbits] from [squarewave] at
    the sample centre, and leaves a well-formed bitset well formed. *)
Lemma setbits_bits (bits0 : bset) :
  exists bits,
    setbits bits0 lambda phase width = Some bits /\
    (forall k, 0 <= k < nbits ->
               Z.testbit bits k = squarewave lambda phase width (sample_center k)) /\
    (bset_wf bits0 -> bset_wf bits).
Proof.
  unfold setbits.
  destruct (for_loop_invariant
              (fun ibit bits => bset_set bits ibit
                                  (squarewave lambda phase width (sample_center ibit)))
              (fun j b =>
                 (forall k, 0 <= k < j ->
                            Z.testbit b k = squarewave lambda phase width (sample_center k)) /\
                 (bset_wf bits0 -> bset_wf b))
              0 nbits bits0) as (bits & Hrun & Hbits & Hwf).
  - apply nbits_nonneg.
  - split; [intros k Hk; lia | tauto].
  - intros j b Hj [Hb Hw].
    destruct (bset_set b j (squarewave lambda phase width (sample_center j))) as [b'|] eqn:E.
    + exists b'. split; [reflexivity|]. split.
      * intros k Hk. rewrite (bset_set_bits b b' j _ ltac:(lia) E) by lia.
        destruct (Z.eqb_spec k j) as [-> | Hne]; [reflexivity | apply Hb; lia].
      * intros H0. apply (bset_set_wf b b' j _ ltac:(lia) (Hw H0) E).
    + unfold bset_set in E. destruct (Z.ltb_spec j nbits); [discriminate | lia].
  - exists bits. auto.
Qed.

End Encoder.

(** ** The noise model *)

Section Noise.

Lemma after_draws_rand (n : nat) (this : SquareWaveFitTest) :
  stream (_rand (after_draws n this)) = stream (_rand this) /\
  drawn (_rand (after_draws n this)) = (drawn (_rand this) + n)%nat.
Proof.
  induction n as [|n [IHs IHd]]; cbn [after_draws].
  - split; [reflexivity | lia].
  - cbn. rewrite IHs, IHd. split; [reflexivity | lia].
Qed.

Variables (model : bset) (eff pur : float).

(** [setRandom] returns, consumes [nbits] draws in index order, and writes
    every bit below [nbits] from the model bit and the draw of that index. *)
Lemma setRandom_bits (this : SquareWaveFitTest) (rbits0 : bset) :
  exists rbits,
    setRandom this model rbits0 eff pur = Some (rbits, after_draws (Z.to_nat nbits) this) /\
    (forall k, 0 <= k < nbits ->
               Z.testbit rbits k =
               if Z.testbit model k
               then flt (draw_for this k) (double_of_float eff)
               else fgt (draw_for this k) (double_of_float pur)) /\
    (bset_wf rbits0 -> bset_wf rbits).
Proof.
  unfold setRandom.
  destruct (for_loop_invariant
              (fun ibit '(rbits, this) =>
                 let '(rval, rand') := Uniform (_rand this) in
                 b <- bset_test model ibit ;;
                 rbits' <- (if b
                            then bset_set rbits ibit (flt rval (double_of_float eff))
                            else bset_set rbits ibit (fgt rval (double_of_float pur))) ;;
                 Some (rbits', with_rand this rand'))
              (fun j st =>
                 snd st = after_draws (Z.to_nat j) this /\
                 (forall k, 0 <= k < j ->
                            Z.testbit (fst st) k =
                            if Z.testbit model k
                            then flt (draw_for this k) (double_of_float eff)
                            else fgt (draw_for this k) (double_of_float pur)) /\
                 (bset_wf rbits0 -> bset_wf (fst st)))
              0 nbits (rbits0, this)) as ([rbits t] & Hrun & Ht & Hbits & Hwf).
  - apply nbits_nonneg.
  - cbn [fst snd]. split; [reflexivity|]. split; [intros k Hk; lia | tauto].
  - intros j [rb t] Hj (Ht & Hb & Hw). cbn [fst snd] in *.
    cbn [Uniform]. unfold bset_test.
    destruct (Z.ltb_spec j nbits) as [_|]; [|lia].
    assert (Hdraw : stream (_rand t) (drawn (_rand t)) = draw_for this j).
    { subst t. destruct (after_draws_rand (Z.to_nat j) this) as [-> ->]. reflexivity. }
    rewrite Hdraw.
    set (v := if Z.testbit model j
              then flt (draw_for this j) (double_of_float eff)
              else fgt (draw_for this j) (double_of_float pur)).
    assert (E : (if Z.testbit model j
                 then bset_set rb j (flt (draw_for this j) (double_of_float eff))
                 else bset_set rb j (fgt (draw_for this j) (double_of_float pur)))
                = bset_set rb j v) by (unfold v; destruct (Z.testbit model j); reflexivity).
    rewrite E. destruct (bset_set rb j v) as [rb'|] eqn:Es.
    + eexists. split; [reflexivity|]. cbn [fst snd]. split; [|split].
      * subst t. replace (Z.to_nat (j + 1)) with (Datatypes.S (Z.to_nat j)) by lia.
        reflexivity.
      * intros k Hk. rewrite (bset_set_bits rb rb' j _ ltac:(lia) Es) by lia.
        destruct (Z.eqb_spec k j) as [-> | Hne]; [reflexivity | apply Hb; lia].
      * intros H0. apply (bset_set_wf rb rb' j _ ltac:(lia) (Hw H0) Es).
    + unfold bset_set in Es. destruct (Z.ltb_spec j nbits); [discriminate | lia].
  - cbn [fst snd] in *. exists rbits. subst t. auto.
Qed.

(** The prior content of the output bitset does not matter. *)
Lemma setRandom_any_rbits (this : SquareWaveFitTest) (rbits1 rbits2 : bset) :
  bset_wf rbits1 -> bset_wf rbits2 ->
  setRandom this model rbits1 eff pur = setRandom this model rbits2 eff pur.
Proof.
  intros H1 H2.
  destruct (setRandom_bits this rbits1) as (obs1 & -> & Hbits1 & Hwf1).
  destruct (setRandom_bits this rbits2) as (obs2 & -> & Hbits2 & Hwf2).
  do 2 f_equal. apply bset_wf_ext; auto.
  intros k Hk. now rewrite (Hbits1 k Hk), (Hbits2 k Hk).
Qed.

(** Hence an iteration of the trial loop does not depend on the observation
    that the previous iteration left in [rbits]. *)
Lemma trial_ignores_rbits (clock : Z -> Z) (itrial : Z) (st : trial_state) (rbits : bset) :
  bset_wf (t_rbits st) -> bset_wf rbits ->
  trial clock model eff pur itrial st =
  trial clock model eff pur itrial
        (mkTrial (t_this st) rbits (t_imod st) (t_bover st) (t_trace st)).
Proof.
  intros H1 H2. unfold trial. cbn [t_this t_rbits t_trace].
  now rewrite (setRandom_any_rbits (t_this st) (t_rbits st) rbits H1 H2).
Qed.

End Noise.

(** ** The search *)

Section Search.

Variables (this : SquareWaveFitTest) (test : bset).
Hypothesis test_wf : bset_wf test.
Hypothesis models_wf : Forall bset_wf (_bitmodels this).

Lemma model_distance (k : Z) (m : bset) :
  vector_at (_bitmodels this) k = Some m ->
  0 <= hamming test m <= nbits /\ bset_count (bset_xor m test) = hamming test m.
Proof.
  intros Hk. apply vector_at_In in Hk.
  rewrite Forall_forall in models_wf. specialize (models_wf m Hk).
  split; [split; [apply hamming_nonneg | now apply hamming_bound]|].
  apply (hamming_sym m test).
Qed.

Lemma to_unsigned_small (z : Z) : 0 <= z < 2 ^ 32 -> to_unsigned z = z.
Proof. apply Z.mod_small. Qed.

(** The scan returns; [bover] is the least distance; the index returned is
    the [unsigned] conversion of the first index at that distance. *)
Lemma bestOverlap_scan :
  _bitmodels this <> [] ->
  exists imod bover best,
    bestOverlap this test = Some (to_unsigned imod, bover) /\
    vector_at (_bitmodels this) imod = Some best /\
    bover = hamming test best /\
    (forall k m, vector_at (_bitmodels this) k = Some m -> bover <= hamming test m) /\
    (forall k m, vector_at (_bitmodels this) k = Some m ->
                 hamming test m = bover -> imod <= k).
Proof.
  intros Hne. unfold bestOverlap.
  set (len := Z.of_nat (length (_bitmodels this))) in *.
  assert (Hnbits : to_unsigned nbits = nbits) by reflexivity.
  destruct (for_loop_invariant
              (fun imodel '(retval, bover) =>
                 m <- vector_at (_bitmodels this) imodel ;;
                 let overlap := bset_count (bset_xor m test) in
                 if overlap <? bover
                 then Some (to_unsigned imodel, to_unsigned overlap)
                 else Some (retval, bover))
              (scanned this test) 0 len (0, to_unsigned nbits))
    as ([retval bover] & Hrun & Hb & Hmin & first & Hret & Hfirst).
  - unfold len. lia.
  - rewrite Hnbits. cbn [scanned]. split; [unfold nbits; lia|].
    split; [intros k m Hk; lia|]. exists 0. split; [reflexivity | now left].
  - intros j [retval bover] Hj (Hb & Hmin & first & Hret & Hfirst).
    destruct (vector_at_inside (_bitmodels this) j Hj) as (m & Hm). rewrite Hm.
    destruct (model_distance j m Hm) as [Hd ->]. cbv zeta.
    destruct (Z.ltb_spec (hamming test m) bover) as [Hlt | Hge].
    + eexists. split; [reflexivity|].
      rewrite (to_unsigned_small (hamming test m)) by (unfold nbits in Hd; lia).
      cbn [scanned]. split; [lia|]. split.
      * intros k m' Hk Hm'. destruct (Z.eq_dec k j) as [-> | Hkj].
        -- rewrite Hm in Hm'. injection Hm' as <-. lia.
        -- specialize (Hmin k m' ltac:(lia) Hm'). lia.
      * exists j. split; [reflexivity|].
        right. split; [lia|]. split; [now exists m|].
        intros k m' Hk Hm'. specialize (Hmin k m' ltac:(lia) Hm'). lia.
    + eexists. split; [reflexivity|]. cbn [scanned]. split; [lia|]. split.
      * intros k m' Hk Hm'. destruct (Z.eq_dec k j) as [-> | Hkj].
        -- rewrite Hm in Hm'. injection Hm' as <-. lia.
        -- apply (Hmin k m'); [lia | exact Hm'].
      * exists first. split; [exact Hret|].
        destruct Hfirst as [Hinit | (Hr & Hex & Hbefore)]; [now left|].
        right. split; [lia|]. split; assumption.
  - assert (Hlen : 0 < len).
    { unfold len. destruct (_bitmodels this); [congruence | cbn [length]; lia]. }
    assert (Hall : forall k m, vector_at (_bitmodels this) k = Some m ->
                               bover <= hamming test m).
    { intros k m Hk. apply (Hmin k m); [|exact Hk].
      apply vector_at_range in Hk. exact Hk. }
    subst retval.
    destruct Hfirst as [[-> ->] | (Hr & (best & Hbest & Hd) & Hbefore)].
    + destruct (vector_at_inside (_bitmodels this) 0 ltac:(lia)) as (m0 & Hm0).
      exists 0, nbits, m0. split; [exact Hrun|]. split; [exact Hm0|].
      pose proof (Hall 0 m0 Hm0). destruct (model_distance 0 m0 Hm0) as [Hd _].
      split; [lia|]. split; [exact Hall|].
      intros k m Hk _. apply vector_at_range in Hk. lia.
    + exists first, bover, best. split; [exact Hrun|]. split; [exact Hbest|].
      split; [now symmetry|]. split; [exact Hall|].
      intros k m Hk Hdk. destruct (Z.lt_ge_cases k first) as [Hlt | Hge]; [|lia].
      pose proof (vector_at_range _ _ _ Hk).
      specialize (Hbefore k m ltac:(lia) Hk). lia.
Qed.

End Search.

(** ** The template library *)

Section Library.

Lemma setbits_encode (lambda phase width : float) :
  setbits bset_zero lambda phase width = Some (encode lambda phase width).
Proof.
  unfold encode.
  destruct (setbits_bits lambda phase width bset_zero) as (bits & -> & _). reflexivity.
Qed.

Lemma encode_wf (lambda phase width : float) : bset_wf (encode lambda phase width).
Proof.
  unfold encode.
  destruct (setbits_bits lambda phase width bset_zero) as (bits & -> & _ & Hwf).
  apply Hwf, bset_wf_zero.
Qed.

Lemma push_all_app (this : SquareWaveFitTest) (es fs : list entry) :
  push_all this (es ++ fs) = push_all (push_all this es) fs.
Proof. apply fold_left_app. Qed.

Lemma push_all_fnbits (es : list entry) :
  forall this, _fnbits (push_all this es) = _fnbits this.
Proof.
  induction es as [|[[[b l] p0] w] es IH]; intros this; [reflexivity|].
  cbn [push_all fold_left]. fold (push_all (push_entry this (b, l, p0, w)) es).
  now rewrite IH.
Qed.

Lemma push_all_members (es : list entry) :
  forall this,
    push_all this es =
    mkSquareWaveFitTest (_hover this) (_hmod this) (_hlambda this) (_hphase this)
      (_hwidth this) (_hdur this)
      (_bitmodels this ++ map (fun e => fst (fst (fst e))) es)
      (_lvec this ++ map (fun e => snd (fst (fst e))) es)
      (_p0vec this ++ map (fun e => snd (fst e)) es)
      (_fvec this ++ map (fun e => snd e) es)
      (_rand this) (_fnbits this).
Proof.
  induction es as [|[[[b l] p0] w] es IH]; intros this.
  - cbn [push_all fold_left map]. rewrite !app_nil_r. now destruct this.
  - cbn [push_all fold_left]. fold (push_all (push_entry this (b, l, p0, w)) es).
    rewrite IH. cbn [push_entry push_model _hover _hmod _hlambda _hphase _hwidth
                       _hdur _bitmodels _lvec _p0vec _fvec _rand _fnbits map fst snd].
    now rewrite <- !app_assoc.
Qed.

Lemma through_cons (lo hi : Z) :
  lo <= hi -> through lo hi = lo :: through (lo + 1) hi.
Proof.
  intros H. unfold through.
  replace (Z.to_nat (hi + 1 - lo)) with (Datatypes.S (Z.to_nat (hi + 1 - (lo + 1)))) by lia.
  cbn [seq map]. f_equal; [lia|].
  rewrite <- seq_shift, map_map. apply map_ext. intros k. lia.
Qed.

Lemma through_nil (lo hi : Z) : hi < lo -> through lo hi = [].
Proof.
  intros H. unfold through. now replace (Z.to_nat (hi + 1 - lo)) with O by lia.
Qed.

(** A loop whose every iteration pushes a list of entries that depends on
    the counter alone pushes the concatenation of these lists, in the order
    of the counter. *)
Lemma for_range_push (body : Z -> SquareWaveFitTest -> option SquareWaveFitTest)
      (g : Z -> list entry) :
  forall n i this,
    _fnbits this = float_of_Z nbits ->
    (forall j t, i <= j < i + Z.of_nat n -> _fnbits t = float_of_Z nbits ->
                 body j t = Some (push_all t (g j))) ->
    for_range n i body this =
    Some (push_all this (flat_map g (through i (i + Z.of_nat n - 1)))).
Proof.
  induction n as [|n IH]; intros i this Hfn Hbody.
  - rewrite through_nil by lia. reflexivity.
  - cbn [for_range]. rewrite (Hbody i this) by (auto; lia).
    rewrite IH.
    + rewrite (through_cons i) by lia. cbn [flat_map]. rewrite push_all_app.
      now replace (i + 1 + Z.of_nat n - 1) with (i + Z.of_nat (Datatypes.S n) - 1) by lia.
    + now rewrite push_all_fnbits.
    + intros j t Hj. apply Hbody. lia.
Qed.

Lemma for_loop_push (body : Z -> SquareWaveFitTest -> option SquareWaveFitTest)
      (g : Z -> list entry) (lo hi : Z) (this : SquareWaveFitTest) :
  _fnbits this = float_of_Z nbits ->
  (forall j t, lo <= j < hi -> _fnbits t = float_of_Z nbits ->
               body j t = Some (push_all t (g j))) ->
  for_loop lo hi body this = Some (push_all this (flat_map g (through lo (hi - 1)))).
Proof.
  intros Hfn Hbody. unfold for_loop.
  destruct (Z.le_gt_cases lo hi) as [Hle | Hgt].
  - rewrite (for_range_push body g) by (auto; intros; apply Hbody; auto; lia).
    now replace (lo + Z.of_nat (Z.to_nat (hi - lo)) - 1) with (hi - 1) by lia.
  - replace (Z.to_nat (hi - lo)) with O by lia.
    rewrite through_nil by lia. reflexivity.
Qed.

Lemma map_flat_map_entries {A B C : Type} (f : B -> C) (g : A -> list B) (l : list A) :
  map f (flat_map g l) = flat_map (fun x => map f (g x)) l.
Proof.
  induction l as [|x l IH]; [reflexivity|].
  cbn [flat_map]. now rewrite map_app, IH.
Qed.

Lemma enumeration_entries (N : Z) :
  flat_map
    (fun il => flat_map
                 (fun ip => map (fun iw => step_entry (il, ip, iw)) (through 1 (il - 2)))
                 (through 0 il))
    (through 2 (N / 2 - 1))
  = map step_entry (enumeration N).
Proof.
  unfold enumeration.
  rewrite map_flat_map_entries. apply flat_map_ext. intros il.
  rewrite map_flat_map_entries. apply flat_map_ext. intros ip.
  now rewrite map_map.
Qed.

Lemma flat_map_singleton {A B : Type} (f : A -> B) (l : list A) :
  flat_map (fun x => [f x]) l = map f l.
Proof.
  induction l as [|x l IH]; [reflexivity|]. cbn [flat_map map app]. now rewrite IH.
Qed.

(** The enumeration of the constructor, loop by loop. *)
Lemma build_models_entries (this : SquareWaveFitTest) :
  _fnbits this = float_of_Z nbits ->
  build_models this = Some (push_all this (map step_entry (enumeration nbits))).
Proof.
  intros Hfn. unfold build_models.
  rewrite (for_loop_push _
             (fun il => flat_map
                          (fun ip => map (fun iw => step_entry (il, ip, iw))
                                         (through 1 (il - 2)))
                          (through 0 il))).
  - now rewrite enumeration_entries.
  - exact Hfn.
  - intros il t Hil Ht.
    assert (Hhalf : nbits / 2 = 18) by reflexivity.
    rewrite (for_loop_push _
               (fun ip => map (fun iw => step_entry (il, ip, iw)) (through 1 (il - 2)))).
    + now replace (il + 1 - 1) with il by lia.
    + exact Ht.
    + intros ip u Hip Hu.
      assert (Hsub : size_t_sub il 1 = il - 1).
      { unfold size_t_sub, to_size_t. apply Z.mod_small. lia. }
      rewrite Hsub.
      rewrite (for_loop_push _ (fun iw => [step_entry (il, ip, iw)])).
      * replace (il - 1 - 1) with (il - 2) by lia.
        now rewrite (flat_map_singleton (fun iw => step_entry (il, ip, iw))).
      * exact Hu.
      * intros iw v Hiw Hv. rewrite Ht, Hu, Hv, setbits_encode. reflexivity.
Qed.

(** The object the constructor returns. *)
Lemma library_built (rand : TRandom3) :
  SquareWaveFitTest_new rand =
  Some (mkSquareWaveFitTest [] [] [] [] [] []
          (map (fun t => encode (step_lambda t) (step_phase t) (step_width t))
               (enumeration nbits))
          (map step_lambda (enumeration nbits))
          (map step_phase (enumeration nbits))
          (map step_width (enumeration nbits))
          rand (float_of_Z nbits)).
Proof.
  unfold SquareWaveFitTest_new. rewrite build_models_entries by reflexivity.
  rewrite push_all_members. cbn [init_members _hover _hmod _hlambda _hphase _hwidth
                                  _hdur _bitmodels _lvec _p0vec _fvec _rand _fnbits app].
  rewrite !map_map. reflexivity.
Qed.

Lemma enumeration_length : Z.of_nat (length (enumeration nbits)) = size_sum 2 (nbits / 2 - 1).
Proof. vm_compute. reflexivity. Qed.

Lemma badParams_fnbits (this that : SquareWaveFitTest) (lambda phase width : float) :
  _fnbits this = _fnbits that ->
  badParams this lambda phase width = badParams that lambda phase width.
Proof. unfold badParams. now intros ->. Qed.

(** Every index triple of the enumeration gives legal parameters. *)
Lemma enumeration_legal :
  forallb
    (fun t => negb (badParams fresh (step_lambda t) (step_phase t) (step_width t)))
    (enumeration nbits) = true.
Proof. vm_compute. reflexivity. Qed.

Lemma In_through (lo hi i : Z) : lo <= i <= hi -> In i (through lo hi).
Proof.
  intros H. unfold through. apply in_map_iff.
  exists (Z.to_nat (i - lo)). split; [lia|]. apply in_seq. lia.
Qed.

Lemma sample_centers_eq :
  sample_centers = map (fun i => (i, sample_center i)) (through 0 (nbits - 1)).
Proof. vm_compute. reflexivity. Qed.

Lemma agrees_at_true (t : Z * Z * Z) (lambda phase width : float) (ic : Z * float) :
  agrees_at t lambda phase width ic = true ->
  squarewave lambda phase width (snd ic) = exact_rule t (fst ic).
Proof. apply Bool.eqb_prop. Qed.

Lemma grid_agrees :
  forallb
    (fun t => forallb (agrees_at t (step_lambda t) (step_phase t) (step_width t))
                      sample_centers)
    (enumeration nbits) = true.
Proof. vm_compute. reflexivity. Qed.

(** On the library the rounding of the [float] and [double] operations never
    changes a bit: every template is the exact square wave of its steps. *)
Lemma library_templates_exact (t : Z * Z * Z) (i : Z) :
  In t (enumeration nbits) -> 0 <= i < nbits ->
  Z.testbit (encode (step_lambda t) (step_phase t) (step_width t)) i = exact_rule t i.
Proof.
  intros Ht Hi.
  destruct (setbits_bits (step_lambda t) (step_phase t) (step_width t) bset_zero)
    as (bits & Hrun & Hbits & _).
  pose proof (setbits_encode (step_lambda t) (step_phase t) (step_width t)) as He.
  assert (E : encode (step_lambda t) (step_phase t) (step_width t) = bits) by congruence.
  rewrite E, (Hbits i Hi).
  pose proof grid_agrees as Hgrid.
  rewrite forallb_forall in Hgrid. specialize (Hgrid t Ht).
  rewrite forallb_forall in Hgrid.
  assert (Hin : In (i, sample_center i) sample_centers).
  { rewrite sample_centers_eq. apply (in_map (fun i => (i, sample_center i))).
    apply In_through. lia. }
  exact (agrees_at_true _ _ _ _ _ (Hgrid _ Hin)).
Qed.

End Library.

(** ** The search on an empty library *)

(** C1, as the code has it: on an empty template library [bestOverlap] does
    not fail; it returns index 0 and leaves [bover] at its initial value
    [nbits]. *)
Theorem bestOverlap_empty_library (this : SquareWaveFitTest) (test : bset) :
  _bitmodels this = [] -> bestOverlap this test = Some (0, nbits).
Proof.
  intros Hempty. unfold bestOverlap. rewrite Hempty. reflexivity.
Qed.

Lemma bestOverlap_empty_library_witness :
  _bitmodels fresh = [] /\ bestOverlap fresh bset_zero = Some (0, nbits).
Proof.
  split; [reflexivity | apply (bestOverlap_empty_library fresh bset_zero); reflexivity].
Defined.

(** C1 as stated fails: the library of a freshly initialised object is empty,
    and the search on it returns the pair (0, 36) instead of failing. *)
Lemma bestOverlap_empty_does_not_fail :
  _bitmodels fresh = [] /\
  bestOverlap fresh bset_zero = Some (0, 36) /\
  bestOverlap fresh bset_zero <> None.
Proof.
  split; [reflexivity|]. split; [reflexivity | discriminate].
Qed.

(** ** Saturation of the noise model *)

Lemma bset_not_bits (b : bset) (k : Z) :
  0 <= k < nbits -> Z.testbit (bset_not b) k = negb (Z.testbit b k).
Proof.
  intros Hk. unfold bset_not. rewrite Z.lxor_spec.
  replace (2 ^ nbits - 1) with (Z.ones nbits) by (rewrite Z.ones_equiv; lia).
  rewrite Z.ones_spec_low by lia. apply xorb_true_r.
Qed.

Lemma bset_not_wf (b : bset) : bset_wf b -> bset_wf (bset_not b).
Proof.
  intros Hb. unfold bset_not. apply (bset_wf_xor b (2 ^ nbits - 1) Hb).
  unfold bset_wf, nbits. lia.
Qed.

(** C2, as the code has it: when every draw lies in [0,1), [setRandom] with
    efficiency 1 and purity 1 returns the model bit for bit; with efficiency 0
    and purity 0 it returns the bitwise complement of the model provided the
    draw consumed at each clear model bit is strictly positive. *)
Theorem setRandom_saturation (this : SquareWaveFitTest) (model rbits : bset) :
  bset_wf model -> bset_wf rbits ->
  (forall k, 0 <= k < nbits ->
             fle d_zero (draw_for this k) = true /\ flt (draw_for this k) d_one = true) ->
  (exists that, setRandom this model rbits f_one f_one = Some (model, that)) /\
  ((forall k, 0 <= k < nbits -> Z.testbit model k = false ->
              flt d_zero (draw_for this k) = true) ->
   exists that, setRandom this model rbits f_zero f_zero = Some (bset_not model, that)).
Proof.
  intros Hmodel Hrbits Hdraws. split.
  - destruct (setRandom_bits model f_one f_one this rbits) as (obs & Hrun & Hbits & Hwf).
    exists (after_draws (Z.to_nat nbits) this). rewrite Hrun. do 2 f_equal.
    apply bset_wf_ext; [auto | exact Hmodel |].
    intros k Hk. rewrite (Hbits k Hk), double_of_float_one.
    destruct (Hdraws k Hk) as [_ Hlt].
    rewrite fgt_flt, Hlt, (flt_asym _ _ Hlt). now destruct (Z.testbit model k).
  - intros Hpos.
    destruct (setRandom_bits model f_zero f_zero this rbits) as (obs & Hrun & Hbits & Hwf).
    exists (after_draws (Z.to_nat nbits) this). rewrite Hrun. do 2 f_equal.
    apply bset_wf_ext; [auto | now apply bset_not_wf |].
    intros k Hk. rewrite (Hbits k Hk), double_of_float_zero, (bset_not_bits model k Hk).
    destruct (Hdraws k Hk) as [Hle _]. rewrite (fle_not_flt _ _ Hle), fgt_flt.
    destruct (Z.testbit model k) eqn:Hbit; [reflexivity|].
    now rewrite (Hpos k Hk Hbit).
Qed.

Lemma setRandom_saturation_witness :
  let this := init_members (constant_generator d_half) in
  bset_wf 5 /\ bset_wf bset_zero /\
  (exists that, setRandom this 5 bset_zero f_one f_one = Some (5, that)) /\
  (exists that, setRandom this 5 bset_zero f_zero f_zero = Some (bset_not 5, that)).
Proof.
  intros this.
  assert (H5 : bset_wf 5) by (unfold bset_wf, nbits; lia).
  assert (H0 : bset_wf bset_zero) by (unfold bset_wf, bset_zero, nbits; lia).
  assert (Hd : forall k, 0 <= k < nbits ->
                         fle d_zero (draw_for this k) = true /\
                         flt (draw_for this k) d_one = true)
    by (intros k _; split; reflexivity).
  destruct (setRandom_saturation this 5 bset_zero H5 H0 Hd) as [Hone Hzero].
  split; [exact H5|]. split; [exact H0|]. split; [exact Hone|].
  apply Hzero. intros k _ _. reflexivity.
Defined.

(** C2 as stated fails at a draw of exactly 0, which lies in [0,1): with
    efficiency 0 and purity 0 an all-clear model and draws that are all 0
    give back the all-clear bitset, not its complement. *)
Lemma setRandom_zero_draw_not_complement :
  fle d_zero d_zero = true /\ flt d_zero d_one = true /\
  option_map fst (setRandom fresh bset_zero bset_zero f_zero f_zero) = Some bset_zero /\
  bset_not bset_zero = 2 ^ 36 - 1 /\
  bset_zero <> bset_not bset_zero.
Proof.
  split; [reflexivity|]. split; [reflexivity|]. split; [vm_compute; reflexivity|].
  split; [reflexivity | discriminate].
Qed.

(** ** The search returns the first template at the least distance *)

(** C3: on a non-empty library of well-formed templates, for a well-formed
    observation, [bestOverlap] returns; [bover] is the least value of
    popcount(observation XOR template) over the library, and the value
    returned is the smallest index of a template at that distance, converted
    to [unsigned], which is that index itself on every library of at most
    2^32 templates. *)
Theorem bestOverlap_minimum_first_index (this : SquareWaveFitTest) (test : bset) :
  bset_wf test ->
  Forall bset_wf (_bitmodels this) ->
  _bitmodels this <> [] ->
  exists imod bover best,
    bestOverlap this test = Some (to_unsigned imod, bover) /\
    vector_at (_bitmodels this) imod = Some best /\
    bover = hamming test best /\
    (forall k m, vector_at (_bitmodels this) k = Some m -> bover <= hamming test m) /\
    (forall k m, vector_at (_bitmodels this) k = Some m ->
                 hamming test m = bover -> imod <= k) /\
    (Z.of_nat (length (_bitmodels this)) <= 2 ^ 32 -> to_unsigned imod = imod).
Proof.
  intros Htest Hwf Hne.
  destruct (bestOverlap_scan this test Htest Hwf Hne)
    as (imod & bover & best & Hrun & Hbest & Hd & Hmin & Hfirst).
  exists imod, bover, best. repeat (split; [assumption|]).
  intros Hlen. apply to_unsigned_small.
  apply vector_at_range in Hbest. lia.
Qed.

Lemma bestOverlap_minimum_first_index_witness :
  let this := push_all fresh [(7, f_zero, f_zero, f_zero); (1, f_zero, f_zero, f_zero);
                              (2, f_zero, f_zero, f_zero)] in
  bset_wf 3 /\
  exists imod bover best,
    bestOverlap this 3 = Some (to_unsigned imod, bover) /\
    vector_at (_bitmodels this) imod = Some best /\
    bover = hamming 3 best /\
    (forall k m, vector_at (_bitmodels this) k = Some m -> bover <= hamming 3 m) /\
    (forall k m, vector_at (_bitmodels this) k = Some m -> hamming 3 m = bover -> imod <= k) /\
    (Z.of_nat (length (_bitmodels this)) <= 2 ^ 32 -> to_unsigned imod = imod).
Proof.
  intros this.
  assert (H3 : bset_wf 3) by (unfold bset_wf, nbits; lia).
  split; [exact H3|].
  apply (bestOverlap_minimum_first_index this 3 H3).
  - repeat constructor; unfold bset_wf, nbits; lia.
  - discriminate.
Defined.

(** ** The enumeration of the constructor *)

(** C4: the constructor returns, and its four vectors hold, in this order,
    the templates and parameters of the index triples of [enumeration]:
    wavelength steps 2 through N/2 - 1 outermost, phase steps 0 through the
    wavelength step in the middle, width steps 1 through the wavelength step
    minus 2 innermost. The library has as many templates as the sum over the
    wavelength steps of (step + 1) * (step - 2), which for N = 36 is the sum
    over the steps 2 through 17, that is 1600. *)
Theorem library_enumeration (rand : TRandom3) :
  exists this,
    SquareWaveFitTest_new rand = Some this /\
    _lvec this = map step_lambda (enumeration nbits) /\
    _p0vec this = map step_phase (enumeration nbits) /\
    _fvec this = map step_width (enumeration nbits) /\
    Forall2 (fun t bits =>
               setbits bset_zero (step_lambda t) (step_phase t) (step_width t) = Some bits)
            (enumeration nbits) (_bitmodels this) /\
    Z.of_nat (length (_bitmodels this)) = size_sum 2 (nbits / 2 - 1) /\
    size_sum 2 (nbits / 2 - 1) = size_sum 2 17 /\
    size_sum 2 17 = 1600.
Proof.
  eexists. split; [apply library_built|].
  cbn [_lvec _p0vec _fvec _bitmodels].
  split; [reflexivity|]. split; [reflexivity|]. split; [reflexivity|]. split.
  - induction (enumeration nbits) as [|t l IH]; cbn [map]; constructor.
    + apply setbits_encode.
    + exact IH.
  - split; [|split; reflexivity].
    rewrite length_map. apply enumeration_length.
Qed.

(** ** The encoder and the square-wave rule *)

Lemma grid_agrees_exactly : forallb exact_on (enumeration nbits) = true.
Proof. vm_compute. reflexivity. Qed.

(** On a triple of the library the program's rule, in rounded arithmetic, is
    the exact rule at the real values of the three [float] parameters. *)
Lemma squarewave_exact_on_library (t : Z * Z * Z) (i : Z) :
  In t (enumeration nbits) -> 0 <= i < nbits ->
  exact_rule_of_floats (step_lambda t) (step_phase t) (step_width t) i =
  Some (squarewave (step_lambda t) (step_phase t) (step_width t) (sample_center i)).
Proof.
  intros Ht Hi. pose proof grid_agrees_exactly as Hgrid.
  rewrite forallb_forall in Hgrid. specialize (Hgrid t Ht).
  unfold exact_on in Hgrid. unfold exact_rule_of_floats.
  destruct (SF2Q (step_lambda t)) as [ql|]; [|discriminate].
  destruct (SF2Q (step_phase t)) as [qp|]; [|discriminate].
  destruct (SF2Q (step_width t)) as [qw|]; [|discriminate].
  rewrite forallb_forall in Hgrid.
  assert (Hin : In (i, sample_center i) sample_centers).
  { rewrite sample_centers_eq. apply (in_map (fun i => (i, sample_center i))).
    apply In_through. lia. }
  specialize (Hgrid _ Hin). unfold agrees_exactly in Hgrid. cbn [fst snd] in Hgrid.
  apply Bool.eqb_prop in Hgrid. now rewrite Hgrid.
Qed.

(** C5, as the code has it: for every parameter triple stored in the
    constructed library and every sample index [i] below [nbits], [setbits]
    sets bit [i] exactly when, with x = (i + 0.5)/N and
    val = (x - phase) mod lambda, increased by lambda when negative,
    0 <= val < width holds in exact arithmetic on the values of the three
    parameters. For every triple, in the library or not, the bit is this
    rule evaluated in the rounded [float] and [double] operations of the
    program. *)
Theorem setbits_rule_exact_on_library (rand : TRandom3) :
  exists this,
    SquareWaveFitTest_new rand = Some this /\
    (forall k lambda phase width,
        vector_at (_lvec this) k = Some lambda ->
        vector_at (_p0vec this) k = Some phase ->
        vector_at (_fvec this) k = Some width ->
        exists bits,
          setbits bset_zero lambda phase width = Some bits /\
          vector_at (_bitmodels this) k = Some bits /\
          forall i, 0 <= i < nbits ->
                    exact_rule_of_floats lambda phase width i = Some (Z.testbit bits i)) /\
    (forall bits0 lambda phase width i,
        0 <= i < nbits ->
        exists bits,
          setbits bits0 lambda phase width = Some bits /\
          let x := float_of_double
                     (f64_div (f64_add (double_of_float (float_of_Z i)) d_half)
                              (double_of_float (float_of_Z nbits))) in
          let val := f32_fmod (f32_sub x phase) lambda in
          let val := if flt val f_zero then f32_add val lambda else val in
          bset_test bits i = Some (fle d_zero (double_of_float val) && flt val width)).
Proof.
  eexists. split; [apply library_built|]. split.
  - intros k lambda phase width Hl Hp Hw. cbn [_lvec _p0vec _fvec] in Hl, Hp, Hw.
    rewrite vector_at_map in Hl, Hp, Hw.
    destruct (vector_at (enumeration nbits) k) as [t|] eqn:Ht; [|discriminate].
    cbn [option_map] in Hl, Hp, Hw.
    apply Some_inj in Hl, Hp, Hw. subst lambda phase width.
    destruct (setbits_bits (step_lambda t) (step_phase t) (step_width t) bset_zero)
      as (bits & Hrun & Hbits & _).
    exists bits. split; [exact Hrun|]. split.
    + cbn [_bitmodels]. rewrite vector_at_map, Ht. cbn [option_map].
      rewrite <- Hrun. symmetry. apply setbits_encode.
    + intros i Hi. rewrite (Hbits i Hi).
      apply squarewave_exact_on_library; [now apply vector_at_In in Ht | exact Hi].
  - intros bits0 lambda phase width i Hi.
    destruct (setbits_bits lambda phase width bits0) as (bits & Hrun & Hbits & _).
    exists bits. split; [exact Hrun|]. cbv zeta. unfold bset_test.
    destruct (Z.ltb_spec i nbits) as [_|]; [|lia].
    rewrite (Hbits i Hi). reflexivity.
Qed.

Lemma setbits_rule_exact_on_library_witness :
  0 <= 1 < nbits /\
  exists bits,
    setbits bset_zero lambda_off_grid f_zero (f32_div (float_of_Z 2) (float_of_Z nbits))
    = Some bits /\
    bset_test bits 1 = Some true.
Proof.
  split; [unfold nbits; lia|].
  destruct (setbits_rule_exact_on_library (constant_generator d_zero)) as (this & _ & _ & Hrule).
  destruct (Hrule bset_zero lambda_off_grid f_zero
                  (f32_div (float_of_Z 2) (float_of_Z nbits)) 1) as (bits & Hrun & Hbit).
  - unfold nbits; lia.
  - exists bits. split; [exact Hrun | exact Hbit].
Defined.

(** C5 as stated fails off the library: the triple of wavelength 6/36, phase
    0 and width [float](1.5/36) is accepted by [badParams]; at sample 1 the
    sample centre, rounded to [float], equals the width, so the program
    finds val < width false and leaves the bit clear, while the exact
    (1 + 0.5)/36 lies below the width and the rule sets the bit. *)
Lemma setbits_differs_from_exact_rule :
  badParams fresh lambda_off_grid f_zero width_off_grid = false /\
  sample_center 1 = width_off_grid /\
  option_map (fun bits => Z.testbit bits 1)
             (setbits bset_zero lambda_off_grid f_zero width_off_grid) = Some false /\
  exact_rule_of_floats lambda_off_grid f_zero width_off_grid 1 = Some true.
Proof.
  split; [vm_compute; reflexivity|]. split; [vm_compute; reflexivity|].
  split; vm_compute; reflexivity.
Qed.

(** ** Self-match *)

Lemma library_models_wf :
  Forall bset_wf
         (map (fun t => encode (step_lambda t) (step_phase t) (step_width t))
              (enumeration nbits)).
Proof.
  apply Forall_forall. intros b Hb. apply in_map_iff in Hb.
  destruct Hb as (t & <- & _). apply encode_wf.
Qed.

(** C6: for every index [k] of the built library, the encoding of the
    parameters stored at [k] is found at distance 0; the index returned is
    the lowest one that holds this bit pattern, hence [k] itself when no
    earlier entry has the same pattern. *)
Theorem library_self_match (rand : TRandom3) :
  exists this,
    SquareWaveFitTest_new rand = Some this /\
    forall k lambda phase width,
      vector_at (_lvec this) k = Some lambda ->
      vector_at (_p0vec this) k = Some phase ->
      vector_at (_fvec this) k = Some width ->
      exists enc imod,
        setbits bset_zero lambda phase width = Some enc /\
        bestOverlap this enc = Some (imod, 0) /\
        vector_at (_bitmodels this) imod = Some enc /\
        (forall j, vector_at (_bitmodels this) j = Some enc -> imod <= j) /\
        imod <= k /\
        ((forall j, 0 <= j < k -> vector_at (_bitmodels this) j <> Some enc) -> imod = k).
Proof.
  eexists. split; [apply library_built|].
  set (this := mkSquareWaveFitTest _ _ _ _ _ _ _ _ _ _ _ _).
  intros k lambda phase width Hl Hp Hw. cbn [this _lvec _p0vec _fvec] in Hl, Hp, Hw.
  rewrite vector_at_map in Hl, Hp, Hw.
  destruct (vector_at (enumeration nbits) k) as [t|] eqn:Ht; [|discriminate].
  cbn [option_map] in Hl, Hp, Hw.
  injection Hl as <-. injection Hp as <-. injection Hw as <-.
  set (enc := encode (step_lambda t) (step_phase t) (step_width t)).
  assert (Hk : vector_at (_bitmodels this) k = Some enc).
  { cbn [this _bitmodels]. rewrite vector_at_map, Ht. reflexivity. }
  assert (Henc : bset_wf enc) by apply encode_wf.
  assert (Hwf : Forall bset_wf (_bitmodels this)) by apply library_models_wf.
  assert (Hlen : Z.of_nat (length (_bitmodels this)) <= 2 ^ 32).
  { cbn [this _bitmodels]. rewrite length_map, enumeration_length. vm_compute. discriminate. }
  assert (Hne : _bitmodels this <> []).
  { intros E. rewrite E in Hk. unfold vector_at in Hk.
    destruct (k <? 0); [discriminate|]. destruct (Z.to_nat k); discriminate. }
  destruct (bestOverlap_scan this enc Henc Hwf Hne)
    as (imod & bover & best & Hrun & Hbest & Hd & Hmin & Hfirst).
  rewrite (to_unsigned_small imod) in Hrun
    by (apply vector_at_range in Hbest; lia).
  assert (Hself : hamming enc enc = 0) by (now apply hamming_zero).
  assert (Hzero : bover = 0).
  { pose proof (Hmin k enc Hk). pose proof (hamming_nonneg enc best). lia. }
  assert (Hbw : bset_wf best).
  { rewrite Forall_forall in Hwf. apply Hwf. now apply vector_at_In in Hbest. }
  assert (Hsame : best = enc).
  { symmetry. apply (proj1 (hamming_zero enc best Henc Hbw)).
    rewrite <- Hd. exact Hzero. }
  clear Hd. subst best bover.
  exists enc, imod. split; [apply setbits_encode|]. split; [exact Hrun|].
  split; [exact Hbest|]. split; [|split].
  - intros j Hj. now apply (Hfirst j enc Hj).
  - now apply (Hfirst k enc Hk).
  - intros Hnodup. pose proof (Hfirst k enc Hk Hself) as Hle.
    pose proof (vector_at_range _ _ _ Hbest) as Hr.
    destruct (Z.eq_dec imod k) as [E | Hneq]; [exact E|].
    exfalso. apply (Hnodup imod); [lia | exact Hbest].
Qed.

Lemma library_self_match_witness :
  exists this,
    SquareWaveFitTest_new (constant_generator d_zero) = Some this /\
    forall k lambda phase width,
      vector_at (_lvec this) k = Some lambda ->
      vector_at (_p0vec this) k = Some phase ->
      vector_at (_fvec this) k = Some width ->
      exists enc imod,
        setbits bset_zero lambda phase width = Some enc /\
        bestOverlap this enc = Some (imod, 0) /\
        vector_at (_bitmodels this) imod = Some enc /\
        (forall j, vector_at (_bitmodels this) j = Some enc -> imod <= j) /\
        imod <= k /\
        ((forall j, 0 <= j < k -> vector_at (_bitmodels this) j <> Some enc) -> imod = k).
Proof.
  exact (library_self_match (constant_generator d_zero)).
Defined.

(** ** Parameter validation *)

(** C7: [badParams] rejects a triple exactly when lambda < 2/N or
    lambda > 0.5, or phase < 0 or phase > lambda, or width < 1/N or
    width > lambda - 1/N, the quotients and the difference being [double]
    operations. For N = 36 the triple lambda = 2/36, phase = 0, width = 1/36
    is accepted; every lambda above 0.5, every phase below 0 and the width 0
    are rejected. *)
Theorem badParams_rejects (this : SquareWaveFitTest) :
  _fnbits this = float_of_Z nbits ->
  (forall lambda phase width,
      badParams this lambda phase width = true <->
      flt (double_of_float lambda) (f64_div d_two (double_of_Z nbits)) = true \/
      fgt (double_of_float lambda) d_half = true \/
      flt (double_of_float phase) d_zero = true \/
      fgt phase lambda = true \/
      flt (double_of_float width) (f64_div d_one (double_of_Z nbits)) = true \/
      fgt (double_of_float width)
          (f64_sub (double_of_float lambda) (f64_div d_one (double_of_Z nbits))) = true) /\
  badParams this lambda_min f_zero width_min = false /\
  (forall lambda phase width,
      fgt (double_of_float lambda) d_half = true ->
      badParams this lambda phase width = true) /\
  (forall lambda phase width,
      flt (double_of_float phase) d_zero = true ->
      badParams this lambda phase width = true) /\
  (forall lambda phase, badParams this lambda phase f_zero = true).
Proof.
  intros Hfn.
  assert (HN : double_of_float (_fnbits this) = double_of_Z nbits) by now rewrite Hfn.
  assert (Hiff : forall lambda phase width,
             badParams this lambda phase width = true <->
             flt (double_of_float lambda) (f64_div d_two (double_of_Z nbits)) = true \/
             fgt (double_of_float lambda) d_half = true \/
             flt (double_of_float phase) d_zero = true \/
             fgt phase lambda = true \/
             flt (double_of_float width) (f64_div d_one (double_of_Z nbits)) = true \/
             fgt (double_of_float width)
                 (f64_sub (double_of_float lambda) (f64_div d_one (double_of_Z nbits)))
             = true).
  { intros lambda phase width. unfold badParams. rewrite HN.
    rewrite !orb_true_iff. tauto. }
  split; [exact Hiff|]. split; [|split; [|split]].
  - rewrite (badParams_fnbits this fresh) by (rewrite Hfn; reflexivity).
    vm_compute. reflexivity.
  - intros lambda phase width H. apply Hiff. tauto.
  - intros lambda phase width H. apply Hiff. tauto.
  - intros lambda phase. apply Hiff. do 4 right. left. reflexivity.
Qed.

Lemma badParams_rejects_witness :
  _fnbits fresh = float_of_Z nbits /\
  badParams fresh lambda_min f_zero width_min = false /\
  badParams fresh f_one f_zero width_min = true.
Proof.
  split; [reflexivity|].
  destruct (badParams_rejects fresh eq_refl) as (_ & Hmin & Habove & _).
  split; [exact Hmin|]. apply Habove. reflexivity.
Defined.

(** ** Rejected parameters stop the run *)

(** C8: when [badParams] rejects the triple, [test] returns -1; it has then
    written the one line "Illegal values", made no call to the encoder, the
    noise model or the search, and left the object, the generator included,
    as it was. *)
Theorem test_rejects_bad_params (this : SquareWaveFitTest) (clock : Z -> Z)
        (lambda phase width eff pur : float) (ntrials : Z) :
  badParams this lambda phase width = true ->
  exists trace,
    test this clock lambda phase width eff pur ntrials = Some (-1, this, trace) /\
    trace = [Cout_illegal_values] /\
    existsb is_call trace = false.
Proof.
  intros Hbad. exists [Cout_illegal_values]. unfold test. rewrite Hbad.
  repeat split.
Qed.

Lemma test_rejects_bad_params_witness :
  badParams fresh f_one f_zero f_zero = true /\
  exists trace,
    test fresh (fun _ => 0) f_one f_zero f_zero f_one f_one 10 = Some (-1, fresh, trace) /\
    trace = [Cout_illegal_values] /\
    existsb is_call trace = false.
Proof.
  split; [reflexivity|].
  apply (test_rejects_bad_params fresh (fun _ => 0) f_one f_zero f_zero f_one f_one 10).
  reflexivity.
Defined.

(** ** Every template of the library has legal parameters *)

(** C9: the constructor returns an object whose three parameter vectors have
    the length of the template vector, and [badParams] is false on every
    triple they hold at a common index. *)
Theorem library_params_legal (rand : TRandom3) :
  exists this,
    SquareWaveFitTest_new rand = Some this /\
    length (_lvec this) = length (_bitmodels this) /\
    length (_p0vec this) = length (_bitmodels this) /\
    length (_fvec this) = length (_bitmodels this) /\
    Forall (fun p => badParams this (fst (fst p)) (snd (fst p)) (snd p) = false)
           (combine (combine (_lvec this) (_p0vec this)) (_fvec this)).
Proof.
  eexists. split; [apply library_built|].
  set (this := mkSquareWaveFitTest _ _ _ _ _ _ _ _ _ _ _ _).
  cbn [this _lvec _p0vec _fvec _bitmodels]. rewrite !length_map.
  split; [reflexivity|]. split; [reflexivity|]. split; [reflexivity|].
  pose proof enumeration_legal as Hlegal. rewrite forallb_forall in Hlegal.
  assert (Hall : forall l, (forall t, In t l -> In t (enumeration nbits)) ->
             Forall (fun p => badParams this (fst (fst p)) (snd (fst p)) (snd p) = false)
                    (combine (combine (map step_lambda l) (map step_phase l))
                             (map step_width l))).
  { induction l as [|t l IH]; intros Hin; cbn [map combine]; constructor.
    - cbn [fst snd]. rewrite (badParams_fnbits this fresh) by reflexivity.
      apply negb_true_iff, Hlegal, Hin. now left.
    - apply IH. intros u Hu. apply Hin. now right. }
  apply Hall. auto.
Qed.

(** ** The noise model overwrites its output *)

(** C10: [setRandom] returns, and its result depends on the model, the
    efficiency, the purity and the [nbits] draws it consumes only: run from
    two well-formed output bitsets and from two generators that agree on
    their next [nbits] draws, it leaves the same observation in both, every
    bit of which is set from the model bit and the draw of its index, and has
    advanced each generator by [nbits] draws. *)
Theorem setRandom_overwrites_rbits (this1 this2 : SquareWaveFitTest)
        (model rbits1 rbits2 : bset) (eff pur : float) :
  bset_wf rbits1 -> bset_wf rbits2 ->
  (forall k, 0 <= k < nbits -> draw_for this1 k = draw_for this2 k) ->
  exists obs,
    setRandom this1 model rbits1 eff pur = Some (obs, after_draws (Z.to_nat nbits) this1) /\
    setRandom this2 model rbits2 eff pur = Some (obs, after_draws (Z.to_nat nbits) this2) /\
    forall k, 0 <= k < nbits ->
              Z.testbit obs k =
              if Z.testbit model k
              then flt (draw_for this1 k) (double_of_float eff)
              else fgt (draw_for this1 k) (double_of_float pur).
Proof.
  intros Hwf1 Hwf2 Hdraws.
  destruct (setRandom_bits model eff pur this1 rbits1) as (obs1 & Hrun1 & Hbits1 & Hobs1).
  destruct (setRandom_bits model eff pur this2 rbits2) as (obs2 & Hrun2 & Hbits2 & Hobs2).
  assert (E : obs2 = obs1).
  { apply bset_wf_ext; auto. intros k Hk.
    now rewrite (Hbits1 k Hk), (Hbits2 k Hk), (Hdraws k Hk). }
  subst obs2. exists obs1. auto.
Qed.

Lemma setRandom_overwrites_rbits_witness :
  let this := init_members (constant_generator d_half) in
  bset_wf 0 /\ bset_wf 1023 /\
  exists obs,
    setRandom this 5 0 f_one f_one = Some (obs, after_draws (Z.to_nat nbits) this) /\
    setRandom this 5 1023 f_one f_one = Some (obs, after_draws (Z.to_nat nbits) this).
Proof.
  intros this.
  assert (H0 : bset_wf 0) by (unfold bset_wf, nbits; lia).
  assert (H1 : bset_wf 1023) by (unfold bset_wf, nbits; lia).
  split; [exact H0|]. split; [exact H1|].
  destruct (setRandom_overwrites_rbits this this 5 0 1023 f_one f_one H0 H1
              (fun k _ => eq_refl)) as (obs & Hrun1 & Hrun2 & _).
  exists obs. split; [exact Hrun1 | exact Hrun2].
Defined.

(** * Further properties of the program *)

(** ** The distance of the search is a metric on bitsets *)

(** X1: popcount(a XOR b), the distance [bestOverlap] minimises, is a metric
    on well-formed bitsets: it lies between 0 and [nbits], it is 0 exactly
    for equal bitsets, it is symmetric and it obeys the triangle inequality. *)
Theorem hamming_metric (a b c : bset) :
  bset_wf a -> bset_wf b -> bset_wf c ->
  0 <= bset_count (bset_xor a b) <= nbits /\
  (bset_count (bset_xor a b) = 0 <-> a = b) /\
  bset_count (bset_xor a b) = bset_count (bset_xor b a) /\
  bset_count (bset_xor a c) <= bset_count (bset_xor a b) + bset_count (bset_xor b c).
Proof.
  intros Ha Hb Hc. split; [|split; [|split]].
  - split; [apply hamming_nonneg | now apply hamming_bound].
  - now apply hamming_zero.
  - apply hamming_sym.
  - now apply hamming_triangle.
Qed.

Lemma hamming_metric_witness :
  bset_wf 5 /\ bset_wf 6 /\ bset_wf 12 /\
  0 <= bset_count (bset_xor 5 6) <= nbits /\
  (bset_count (bset_xor 5 6) = 0 <-> 5 = 6) /\
  bset_count (bset_xor 5 6) = bset_count (bset_xor 6 5) /\
  bset_count (bset_xor 5 12) <= bset_count (bset_xor 5 6) + bset_count (bset_xor 6 12).
Proof.
  assert (H5 : bset_wf 5) by (unfold bset_wf, nbits; lia).
  assert (H6 : bset_wf 6) by (unfold bset_wf, nbits; lia).
  assert (H12 : bset_wf 12) by (unfold bset_wf, nbits; lia).
  split; [exact H5|]. split; [exact H6|]. split; [exact H12|].
  exact (hamming_metric 5 6 12 H5 H6 H12).
Defined.

(** ** The search finds exact matches *)

Lemma vector_at_of_In {A : Type} (v : list A) (x : A) :
  In x v -> exists k, vector_at v k = Some x.
Proof.
  intros H. apply In_nth_error in H. destruct H as [n Hn].
  exists (Z.of_nat n). unfold vector_at.
  destruct (Z.ltb_spec (Z.of_nat n) 0); [lia|]. now rewrite Nat2Z.id.
Qed.

(** A template of the library is found at distance 0, at the first index
    that holds its bit pattern. *)
Lemma bestOverlap_member (this : SquareWaveFitTest) (enc : bset) (k : Z) :
  Forall bset_wf (_bitmodels this) ->
  Z.of_nat (length (_bitmodels this)) <= 2 ^ 32 ->
  vector_at (_bitmodels this) k = Some enc ->
  exists imod,
    bestOverlap this enc = Some (imod, 0) /\
    vector_at (_bitmodels this) imod = Some enc /\
    (forall j, vector_at (_bitmodels this) j = Some enc -> imod <= j).
Proof.
  intros Hwf Hlen Hk.
  assert (Henc : bset_wf enc).
  { rewrite Forall_forall in Hwf. apply Hwf. now apply vector_at_In in Hk. }
  assert (Hne : _bitmodels this <> []).
  { intros E. rewrite E in Hk. unfold vector_at in Hk.
    destruct (k <? 0); [discriminate|]. destruct (Z.to_nat k); discriminate. }
  destruct (bestOverlap_scan this enc Henc Hwf Hne)
    as (imod & bover & best & Hrun & Hbest & Hd & Hmin & Hfirst).
  rewrite (to_unsigned_small imod) in Hrun by (apply vector_at_range in Hbest; lia).
  assert (Hself : hamming enc enc = 0) by (now apply hamming_zero).
  assert (Hzero : bover = 0).
  { pose proof (Hmin k enc Hk). pose proof (hamming_nonneg enc best). lia. }
  assert (Hbw : bset_wf best).
  { rewrite Forall_forall in Hwf. apply Hwf. now apply vector_at_In in Hbest. }
  assert (Hsame : best = enc).
  { symmetry. apply (proj1 (hamming_zero enc best Henc Hbw)). rewrite <- Hd. exact Hzero. }
  clear Hd. subst best bover. exists imod. split; [exact Hrun|]. split; [exact Hbest|].
  intros j Hj. now apply (Hfirst j enc Hj).
Qed.

(** X2: on any library of well-formed templates, empty or not, [bestOverlap]
    returns a distance between 0 and [nbits], and the distance is 0 exactly
    when the observation is one of the templates. *)
Theorem bestOverlap_exact_match (this : SquareWaveFitTest) (test : bset) :
  bset_wf test ->
  Forall bset_wf (_bitmodels this) ->
  exists imod bover,
    bestOverlap this test = Some (imod, bover) /\
    0 <= bover <= nbits /\
    (bover = 0 <-> In test (_bitmodels this)).
Proof.
  intros Htest Hwf.
  destruct (_bitmodels this) as [|m0 l] eqn:Hlib.
  - exists 0, nbits. unfold bestOverlap. rewrite Hlib. split; [reflexivity|].
    split; [unfold nbits; lia|]. split; [unfold nbits; lia | intros []].
  - rewrite <- Hlib in *.
    assert (Hne : _bitmodels this <> []) by (rewrite Hlib; discriminate).
    destruct (bestOverlap_scan this test Htest Hwf Hne)
      as (imod & bover & best & Hrun & Hbest & Hd & Hmin & _).
    assert (Hbw : bset_wf best).
    { rewrite Forall_forall in Hwf. apply Hwf. now apply vector_at_In in Hbest. }
    exists (to_unsigned imod), bover. split; [exact Hrun|]. split.
    + rewrite Hd. split; [apply hamming_nonneg | now apply hamming_bound].
    + split.
      * intros H0. rewrite H0 in Hd. symmetry in Hd.
        apply (hamming_zero test best Htest Hbw) in Hd. subst best.
        now apply vector_at_In in Hbest.
      * intros Hin. destruct (vector_at_of_In _ _ Hin) as (k & Hk).
        pose proof (Hmin k test Hk) as Hle.
        rewrite (proj2 (hamming_zero test test Htest Htest) eq_refl) in Hle.
        pose proof (hamming_nonneg test best). lia.
Qed.

Lemma bestOverlap_exact_match_witness :
  let this := push_all fresh [(7, f_zero, f_zero, f_zero); (1, f_zero, f_zero, f_zero)] in
  bset_wf 1 /\
  exists imod bover,
    bestOverlap this 1 = Some (imod, bover) /\
    0 <= bover <= nbits /\
    (bover = 0 <-> In 1 (_bitmodels this)).
Proof.
  intros this.
  assert (H1 : bset_wf 1) by (unfold bset_wf, nbits; lia).
  split; [exact H1|].
  apply (bestOverlap_exact_match this 1 H1).
  repeat constructor; unfold bset_wf, nbits; lia.
Defined.

(** ** The draws of the noise model *)

Lemma after_draws_frame (n : nat) (this : SquareWaveFitTest) :
  same_library this (after_draws n this) /\
  same_histograms this (after_draws n this).
Proof.
  unfold same_library, same_histograms.
  induction n as [|n IH]; cbn [after_draws]; [tauto|].
  cbn [with_rand _hover _hmod _hlambda _hphase _hwidth _hdur _bitmodels _lvec _p0vec
         _fvec _fnbits]. exact IH.
Qed.

(** X3: [setRandom] always returns; it makes exactly [nbits] calls to the
    generator and changes nothing else in the object: the library and the
    histograms are as before, and the next call of [setRandom] consumes the
    draws that follow, so that its bit [k] is decided by draw number
    [nbits + k] counted from the first call. *)
Theorem setRandom_draws (this : SquareWaveFitTest) (model rbits : bset) (eff pur : float) :
  exists obs that,
    setRandom this model rbits eff pur = Some (obs, that) /\
    stream (_rand that) = stream (_rand this) /\
    drawn (_rand that) = (drawn (_rand this) + Z.to_nat nbits)%nat /\
    same_library this that /\
    same_histograms this that /\
    (forall k, draw_for that k =
               stream (_rand this) (drawn (_rand this) + Z.to_nat nbits + Z.to_nat k)%nat).
Proof.
  destruct (setRandom_bits model eff pur this rbits) as (obs & Hrun & _).
  exists obs, (after_draws (Z.to_nat nbits) this).
  destruct (after_draws_rand (Z.to_nat nbits) this) as [Hs Hd].
  destruct (after_draws_frame (Z.to_nat nbits) this) as (Hlib & Hhist).
  split; [exact Hrun|]. split; [exact Hs|]. split; [exact Hd|]. split; [exact Hlib|].
  split; [exact Hhist|].
  intros k. unfold draw_for. now rewrite Hs, Hd.
Qed.

(** ** The encoder overwrites its output *)

(** X4: [setbits] does not depend on what the bitset it writes into held
    before: on every well-formed bitset it returns the template that it
    returns on a fresh one, this template is well formed, and encoding again
    into the result changes nothing. *)
Theorem setbits_overwrites (bits0 : bset) (lambda phase width : float) :
  bset_wf bits0 ->
  exists bits,
    setbits bits0 lambda phase width = Some bits /\
    setbits bset_zero lambda phase width = Some bits /\
    setbits bits lambda phase width = Some bits /\
    bset_wf bits.
Proof.
  intros H0.
  destruct (setbits_bits lambda phase width bits0) as (b1 & Hr1 & Hb1 & Hw1).
  destruct (setbits_bits lambda phase width bset_zero) as (b2 & Hr2 & Hb2 & Hw2).
  destruct (setbits_bits lambda phase width b1) as (b3 & Hr3 & Hb3 & Hw3).
  specialize (Hw1 H0). specialize (Hw2 bset_wf_zero). specialize (Hw3 Hw1).
  assert (E2 : b2 = b1).
  { apply bset_wf_ext; auto. intros k Hk. now rewrite (Hb1 k Hk), (Hb2 k Hk). }
  assert (E3 : b3 = b1).
  { apply bset_wf_ext; auto. intros k Hk. now rewrite (Hb1 k Hk), (Hb3 k Hk). }
  subst b2 b3. exists b1. auto.
Qed.

Lemma setbits_overwrites_witness :
  bset_wf 1023 /\
  exists bits,
    setbits 1023 lambda_min f_zero width_min = Some bits /\
    setbits bset_zero lambda_min f_zero width_min = Some bits /\
    setbits bits lambda_min f_zero width_min = Some bits /\
    bset_wf bits.
Proof.
  assert (H : bset_wf 1023) by (unfold bset_wf, nbits; lia).
  split; [exact H|].
  exact (setbits_overwrites 1023 lambda_min f_zero width_min H).
Defined.

(** ** A noiseless observation is matched like the model *)

(** X5: with efficiency 1 and purity 1 and draws in [0,1), the observation
    that [setRandom] produces is the model, and the search that follows it,
    on the object as [setRandom] left it, returns what the search for the
    model returns. *)
Theorem noiseless_observation_match (this : SquareWaveFitTest) (model rbits : bset) :
  bset_wf model -> bset_wf rbits ->
  (forall k, 0 <= k < nbits ->
             fle d_zero (draw_for this k) = true /\ flt (draw_for this k) d_one = true) ->
  exists that,
    setRandom this model rbits f_one f_one = Some (model, that) /\
    bestOverlap that model = bestOverlap this model.
Proof.
  intros Hmodel Hrbits Hdraws.
  destruct (setRandom_bits model f_one f_one this rbits) as (obs & Hrun & Hbits & Hwf).
  exists (after_draws (Z.to_nat nbits) this).
  assert (E : obs = model).
  { apply bset_wf_ext; [auto | exact Hmodel |].
    intros k Hk. rewrite (Hbits k Hk), double_of_float_one.
    destruct (Hdraws k Hk) as [_ Hlt].
    rewrite fgt_flt, Hlt, (flt_asym _ _ Hlt). now destruct (Z.testbit model k). }
  subst obs. split; [exact Hrun|].
  destruct (after_draws_frame (Z.to_nat nbits) this) as ((Hlib & _) & _).
  unfold bestOverlap. now rewrite Hlib.
Qed.

Lemma noiseless_observation_match_witness :
  let this := push_all (init_members (constant_generator d_half))
                       [(7, f_zero, f_zero, f_zero); (1, f_zero, f_zero, f_zero)] in
  bset_wf 5 /\ bset_wf bset_zero /\
  exists that,
    setRandom this 5 bset_zero f_one f_one = Some (5, that) /\
    bestOverlap that 5 = bestOverlap this 5.
Proof.
  intros this.
  assert (H5 : bset_wf 5) by (unfold bset_wf, nbits; lia).
  assert (H0 : bset_wf bset_zero) by (unfold bset_wf, bset_zero, nbits; lia).
  split; [exact H5|]. split; [exact H0|].
  apply (noiseless_observation_match this 5 bset_zero H5 H0).
  intros k _. split; reflexivity.
Defined.

(** ** Parameters that are not numbers *)

Lemma SFfmod_nan_r (prec emax : Z) (x : spec_float) :
  SFfmod prec emax x S754_nan = S754_nan.
Proof. now destruct x. Qed.

Lemma SFsub_nan_r (prec emax : Z) (x : spec_float) :
  SFsub prec emax x S754_nan = S754_nan.
Proof. now destruct x. Qed.

Lemma flt_nan_r (x : spec_float) : flt x S754_nan = false.
Proof. now destruct x. Qed.

Lemma squarewave_nan (lambda phase width x : float) :
  lambda = S754_nan \/ phase = S754_nan \/ width = S754_nan ->
  squarewave lambda phase width x = false.
Proof.
  unfold squarewave, f32_fmod, f32_sub. intros [-> | [-> | ->]].
  - rewrite SFfmod_nan_r. reflexivity.
  - rewrite SFsub_nan_r. reflexivity.
  - rewrite flt_nan_r. apply andb_false_r.
Qed.

(** X6: [badParams] does not reject a wavelength that is not a number: with
    a NaN wavelength it decides on the phase and the width alone, and it
    accepts the triple of three NaNs. Whenever one of the three parameters is
    NaN the encoder returns the all-clear template. *)
Theorem nan_parameters (this : SquareWaveFitTest) :
  (forall phase width,
      badParams this S754_nan phase width =
      flt (double_of_float phase) d_zero
      || flt (double_of_float width) (f64_div d_one (double_of_float (_fnbits this)))) /\
  badParams this S754_nan S754_nan S754_nan = false /\
  (forall lambda phase width,
      lambda = S754_nan \/ phase = S754_nan \/ width = S754_nan ->
      setbits bset_zero lambda phase width = Some bset_zero).
Proof.
  split; [|split].
  - intros phase width. unfold badParams.
    change (double_of_float S754_nan) with S754_nan.
    change (fgt phase S754_nan) with false.
    change (flt S754_nan (f64_div d_two (double_of_float (_fnbits this)))) with false.
    change (fgt S754_nan d_half) with false.
    change (f64_sub S754_nan (f64_div d_one (double_of_float (_fnbits this))))
      with S754_nan.
    change (fgt (double_of_float width) S754_nan) with false.
    cbn [orb]. rewrite !orb_false_r. reflexivity.
  - reflexivity.
  - intros lambda phase width Hnan.
    destruct (setbits_bits lambda phase width bset_zero) as (bits & Hrun & Hbits & Hwf).
    rewrite Hrun. f_equal. apply bset_wf_ext; [apply Hwf, bset_wf_zero | apply bset_wf_zero |].
    intros k Hk. rewrite (Hbits k Hk), (squarewave_nan _ _ _ _ Hnan).
    symmetry. apply Z.testbit_0_l.
Qed.

Lemma nan_parameters_witness :
  badParams fresh S754_nan f_zero width_min = false /\
  setbits bset_zero S754_nan f_zero width_min = Some bset_zero.
Proof.
  destruct (nan_parameters fresh) as (Hbad & _ & Henc).
  split.
  - rewrite Hbad. reflexivity.
  - apply Henc. left. reflexivity.
Defined.

(** ** The templates of the library *)

Lemma enumeration_nonempty : enumeration nbits <> [].
Proof.
  intros E. pose proof enumeration_length as H. rewrite E in H.
  vm_compute in H. discriminate.
Qed.

(** The object the constructor returns is in the state [test] relies on. *)
Lemma library_consistent (rand : TRandom3) (this : SquareWaveFitTest) :
  SquareWaveFitTest_new rand = Some this ->
  consistent this /\
  _fnbits this = float_of_Z nbits /\
  _bitmodels this = map (fun t => encode (step_lambda t) (step_phase t) (step_width t))
                        (enumeration nbits) /\
  _lvec this = map step_lambda (enumeration nbits) /\
  _p0vec this = map step_phase (enumeration nbits) /\
  _fvec this = map step_width (enumeration nbits).
Proof.
  rewrite library_built. intros H. apply Some_inj in H. subst this.
  unfold consistent. cbn [_bitmodels _lvec _p0vec _fvec _fnbits].
  rewrite !length_map. repeat split.
  - intros E. apply map_eq_nil in E. now apply enumeration_nonempty.
  - apply library_models_wf.
  - rewrite enumeration_length. vm_compute. discriminate.
Qed.

(** X7: every template of the constructed library is the square wave of its
    index steps in exact arithmetic: bit [i] of the template of the steps
    (il, ip, iw) is set exactly when (2i + 1 - 2ip) mod 2il < 2iw, that is
    when the sample centre (i + 1/2)/N, shifted by the phase ip/N and reduced
    modulo the wavelength il/N, falls below the width iw/N. No rounding of
    the [float] and [double] operations changes a bit. *)
Theorem library_templates_are_exact (rand : TRandom3) :
  exists this,
    SquareWaveFitTest_new rand = Some this /\
    forall k il ip iw bits,
      vector_at (enumeration nbits) k = Some (il, ip, iw) ->
      vector_at (_bitmodels this) k = Some bits ->
      forall i, 0 <= i < nbits ->
                Z.testbit bits i = ((2 * i + 1 - 2 * ip) mod (2 * il) <? 2 * iw).
Proof.
  eexists. split; [apply library_built|].
  intros k il ip iw bits Ht Hb i Hi. cbn [_bitmodels] in Hb.
  rewrite vector_at_map, Ht in Hb. cbn [option_map] in Hb. apply Some_inj in Hb.
  subst bits. apply vector_at_In in Ht.
  exact (library_templates_exact (il, ip, iw) i Ht Hi).
Qed.

(** ** Templates that differ by a whole wavelength of phase *)

Lemma triple_eqb_eq (t u : Z * Z * Z) : triple_eqb t u = true -> t = u.
Proof.
  destruct t as [[a b] c], u as [[a' b'] c']. unfold triple_eqb. cbn [fst snd].
  rewrite !andb_true_iff, !Z.eqb_eq. intros [[-> ->] ->]. reflexivity.
Qed.

Lemma index_of_sound (t : Z * Z * Z) (l : list (Z * Z * Z)) :
  forall j, index_of t l = Some j -> nth_error l j = Some t.
Proof.
  induction l as [|u l IH]; intros j; cbn [index_of]; [discriminate|].
  destruct (triple_eqb t u) eqn:E.
  - intros [= <-]. apply triple_eqb_eq in E. now subst.
  - destruct (index_of t l) as [i|]; [|discriminate].
    intros [= <-]. cbn [nth_error]. now apply IH.
Qed.

Lemma wrapped_after_zero_sound (all : list (Z * Z * Z)) :
  forall l k, wrapped_after_zero all k l = true ->
  forall n il iw, nth_error l n = Some (il, il, iw) ->
  exists j, (j < k + n)%nat /\ nth_error all j = Some (il, 0, iw).
Proof.
  induction l as [|t l IH]; intros k Hchk n il iw Hn.
  - destruct n; discriminate.
  - cbn [wrapped_after_zero] in Hchk. apply andb_true_iff in Hchk.
    destruct Hchk as [Hhead Htail]. destruct n as [|n].
    + cbn [nth_error] in Hn. apply Some_inj in Hn. subst t. cbn [fst snd] in Hhead.
      rewrite Z.eqb_refl in Hhead.
      destruct (index_of (il, 0, iw) all) as [j|] eqn:Hj; [|discriminate].
      apply Nat.ltb_lt in Hhead. exists j. split; [lia|]. now apply index_of_sound.
    + cbn [nth_error] in Hn. destruct (IH (Datatypes.S k) Htail n il iw Hn) as (j & Hlt & Hj).
      exists j. split; [lia | exact Hj].
Qed.

Lemma enumeration_wrapped :
  wrapped_after_zero (enumeration nbits) 0 (enumeration nbits) = true.
Proof. vm_compute. reflexivity. Qed.

Lemma encode_phase_wrap (il iw : Z) :
  In (il, il, iw) (enumeration nbits) -> In (il, 0, iw) (enumeration nbits) ->
  encode (step_lambda (il, il, iw)) (step_phase (il, il, iw)) (step_width (il, il, iw)) =
  encode (step_lambda (il, 0, iw)) (step_phase (il, 0, iw)) (step_width (il, 0, iw)).
Proof.
  intros Hw Hz. apply bset_wf_ext; try apply encode_wf.
  intros i Hi. rewrite (library_templates_exact _ i Hw Hi), (library_templates_exact _ i Hz Hi).
  cbn [exact_rule]. f_equal.
  replace (2 * i + 1 - 2 * il) with (2 * i + 1 + (-1) * (2 * il)) by lia.
  rewrite Z_mod_plus_full. f_equal. lia.
Qed.

(** X8: the library holds duplicate bit patterns. An entry whose phase step
    equals its wavelength step (the phase is one whole wavelength) has the
    template of the entry with the same wavelength and width and phase 0,
    which stands at a lower index; a search for this template therefore
    returns a lower index than that of the entry, at distance 0. *)
Theorem phase_wrap_duplicates (rand : TRandom3) :
  exists this,
    SquareWaveFitTest_new rand = Some this /\
    forall k il iw bits,
      vector_at (enumeration nbits) k = Some (il, il, iw) ->
      vector_at (_bitmodels this) k = Some bits ->
      exists j imod,
        0 <= j < k /\
        vector_at (enumeration nbits) j = Some (il, 0, iw) /\
        vector_at (_bitmodels this) j = Some bits /\
        bestOverlap this bits = Some (imod, 0) /\
        imod < k.
Proof.
  destruct (SquareWaveFitTest_new rand) as [this|] eqn:Hnew;
    [|rewrite library_built in Hnew; discriminate].
  exists this. split; [reflexivity|].
  destruct (library_consistent rand this Hnew) as ((_ & Hwf & Hlen & _) & _ & Hbm & _).
  intros k il iw bits Ht Hb.
  assert (Hk : 0 <= k) by (apply vector_at_range in Ht; lia).
  assert (Hn : nth_error (enumeration nbits) (Z.to_nat k) = Some (il, il, iw)).
  { unfold vector_at in Ht. destruct (Z.ltb_spec k 0); [lia | exact Ht]. }
  destruct (wrapped_after_zero_sound _ _ 0%nat enumeration_wrapped _ il iw Hn)
    as (j & Hlt & Hj).
  assert (Hzj : vector_at (enumeration nbits) (Z.of_nat j) = Some (il, 0, iw)).
  { unfold vector_at. destruct (Z.ltb_spec (Z.of_nat j) 0); [lia|]. now rewrite Nat2Z.id. }
  assert (Hsame : vector_at (_bitmodels this) (Z.of_nat j) = Some bits).
  { rewrite Hbm in Hb |- *. rewrite vector_at_map, Ht in Hb. rewrite vector_at_map, Hzj.
    cbn [option_map] in Hb |- *. apply Some_inj in Hb. subst bits. f_equal. symmetry.
    apply encode_phase_wrap; [now apply vector_at_In in Ht | now apply vector_at_In in Hzj]. }
  destruct (bestOverlap_member this bits (Z.of_nat j) Hwf Hlen Hsame)
    as (imod & Hrun & _ & Hfirst).
  exists (Z.of_nat j), imod. split; [lia|]. split; [exact Hzj|]. split; [exact Hsame|].
  split; [exact Hrun|]. specialize (Hfirst _ Hsame). lia.
Qed.

(** ** What a search on the library reports *)

(** X9: on the constructed library every search, for any well-formed
    observation, returns an index inside the library; the parameters stored
    at that index form a triple that [badParams] accepts, the template stored
    there is their encoding, and the distance returned is the distance of the
    observation to that template. *)
Theorem search_reports_legal_parameters (rand : TRandom3) :
  exists this,
    SquareWaveFitTest_new rand = Some this /\
    forall obs, bset_wf obs ->
      exists imod bover lambda phase width bits,
        bestOverlap this obs = Some (imod, bover) /\
        0 <= imod < Z.of_nat (length (_bitmodels this)) /\
        vector_at (_lvec this) imod = Some lambda /\
        vector_at (_p0vec this) imod = Some phase /\
        vector_at (_fvec this) imod = Some width /\
        vector_at (_bitmodels this) imod = Some bits /\
        badParams this lambda phase width = false /\
        setbits bset_zero lambda phase width = Some bits /\
        bover = bset_count (bset_xor bits obs).
Proof.
  destruct (SquareWaveFitTest_new rand) as [this|] eqn:Hnew;
    [|rewrite library_built in Hnew; discriminate].
  exists this. split; [reflexivity|].
  destruct (library_consistent rand this Hnew)
    as ((Hne & Hwf & Hlen & _) & Hfn & Hbm & Hl & Hp & Hw).
  intros obs Hobs.
  destruct (bestOverlap_scan this obs Hobs Hwf Hne)
    as (imod & bover & best & Hrun & Hbest & Hd & _).
  pose proof (vector_at_range _ _ _ Hbest) as Hr.
  rewrite (to_unsigned_small imod) in Hrun by lia.
  assert (Hdist : bover = bset_count (bset_xor best obs)).
  { rewrite Hd. unfold hamming, bset_xor. now rewrite Z.lxor_comm. }
  clear Hd.
  assert (Ht : exists t, vector_at (enumeration nbits) imod = Some t).
  { apply vector_at_inside. rewrite Hbm, length_map in Hr. exact Hr. }
  destruct Ht as (t & Ht).
  exists imod, bover, (step_lambda t), (step_phase t), (step_width t), best.
  split; [exact Hrun|]. split; [exact Hr|].
  rewrite Hl, Hp, Hw, !vector_at_map, Ht. cbn [option_map].
  split; [reflexivity|]. split; [reflexivity|]. split; [reflexivity|].
  split; [exact Hbest|]. split; [|split; [|exact Hdist]].
  - rewrite (badParams_fnbits this fresh) by (rewrite Hfn; reflexivity).
    pose proof enumeration_legal as Hlegal. rewrite forallb_forall in Hlegal.
    apply negb_true_iff, Hlegal. now apply vector_at_In in Ht.
  - rewrite Hbm, vector_at_map, Ht in Hbest. cbn [option_map] in Hbest.
    apply Some_inj in Hbest. rewrite <- Hbest. apply setbits_encode.
Qed.

(** ** Runs of [test] *)

Section Preserved.

Context {S : Type}.
Variable body : Z -> S -> option S.
Variable P : S -> Prop.
Hypothesis body_keeps : forall j t t', P t -> body j t = Some t' -> P t'.

(** A property that every iteration keeps holds when the loop returns. *)
Lemma for_range_preserved :
  forall n i s s', P s -> for_range n i body s = Some s' -> P s'.
Proof.
  induction n as [|n IH]; intros i s s' Hs; cbn [for_range].
  - intros H. apply Some_inj in H. now subst.
  - destruct (body i s) as [t|] eqn:Hb; [|discriminate].
    apply IH. exact (body_keeps i s t Hs Hb).
Qed.

Lemma for_loop_preserved (lo hi : Z) (s s' : S) :
  P s -> for_loop lo hi body s = Some s' -> P s'.
Proof. apply for_range_preserved. Qed.

End Preserved.

Lemma same_library_refl (this : SquareWaveFitTest) : same_library this this.
Proof. unfold same_library. tauto. Qed.

Lemma same_library_trans (a b c : SquareWaveFitTest) :
  same_library a b -> same_library b c -> same_library a c.
Proof.
  unfold same_library. intros (H1 & H2 & H3 & H4 & H5) (K1 & K2 & K3 & K4 & K5).
  repeat split; congruence.
Qed.

Lemma same_library_fill (this : SquareWaveFitTest) (d o m l p0 w : double) :
  same_library this (fill_histograms this d o m l p0 w).
Proof. unfold same_library. cbn. tauto. Qed.

Lemma fill_histograms_rand (this : SquareWaveFitTest) (d o m l p0 w : double) :
  _rand (fill_histograms this d o m l p0 w) = _rand this.
Proof. reflexivity. Qed.

Lemma reset_histograms_rand (this : SquareWaveFitTest) :
  _rand (reset_histograms this) = _rand this.
Proof. reflexivity. Qed.

Lemma fill_histograms_filled (this : SquareWaveFitTest) (d o m l p0 w : double) (n : nat) :
  filled this n -> filled (fill_histograms this d o m l p0 w) (Datatypes.S n).
Proof.
  unfold filled, fill_histograms, TH1F_Fill.
  cbn [_hover _hmod _hlambda _hphase _hwidth _hdur].
  rewrite !length_app. cbn [length]. intros (F1 & F2 & F3 & F4 & F5 & F6).
  repeat split; lia.
Qed.

Lemma filled_same (this that : SquareWaveFitTest) (n : nat) :
  same_histograms this that -> filled this n -> filled that n.
Proof.
  unfold same_histograms, filled. intros (-> & -> & -> & -> & -> & ->). tauto.
Qed.

Lemma reset_histograms_filled (this : SquareWaveFitTest) :
  filled (reset_histograms this) 0.
Proof. unfold filled. cbn. tauto. Qed.

Lemma same_library_reset (this : SquareWaveFitTest) :
  same_library this (reset_histograms this).
Proof. unfold same_library. cbn. tauto. Qed.

Lemma consistent_same (this that : SquareWaveFitTest) :
  same_library this that -> consistent this -> consistent that.
Proof.
  unfold same_library, consistent. intros (-> & -> & -> & -> & _). tauto.
Qed.

Lemma bestOverlap_same (this that : SquareWaveFitTest) (obs : bset) :
  same_library this that -> bestOverlap that obs = bestOverlap this obs.
Proof. intros (H & _). unfold bestOverlap. now rewrite H. Qed.

(** On a consistent object the search returns an index at which the four
    vectors can be read. *)
Lemma search_in_range (this : SquareWaveFitTest) (obs : bset) :
  consistent this -> bset_wf obs ->
  exists imod bover bits lam pha wid,
    bestOverlap this obs = Some (imod, bover) /\
    vector_at (_bitmodels this) imod = Some bits /\
    vector_at (_lvec this) imod = Some lam /\
    vector_at (_p0vec this) imod = Some pha /\
    vector_at (_fvec this) imod = Some wid.
Proof.
  intros (Hne & Hwf & Hlen & Hl & Hp & Hw) Hobs.
  destruct (bestOverlap_scan this obs Hobs Hwf Hne)
    as (imod & bover & best & Hrun & Hbest & _).
  pose proof (vector_at_range _ _ _ Hbest) as Hr.
  rewrite (to_unsigned_small imod) in Hrun by lia.
  destruct (vector_at_inside (_lvec this) imod ltac:(lia)) as (lam & Hlam).
  destruct (vector_at_inside (_p0vec this) imod ltac:(lia)) as (pha & Hpha).
  destruct (vector_at_inside (_fvec this) imod ltac:(lia)) as (wid & Hwid).
  exists imod, bover, best, lam, pha, wid. auto.
Qed.

(** One iteration of the trial loop on a consistent object. *)
Lemma trial_runs (clock : Z -> Z) (model : bset) (eff pur : float)
      (itrial : Z) (st : trial_state) :
  consistent (t_this st) -> bset_wf (t_rbits st) ->
  exists st',
    trial clock model eff pur itrial st = Some st' /\
    same_library (t_this st) (t_this st') /\
    stream (_rand (t_this st')) = stream (_rand (t_this st)) /\
    drawn (_rand (t_this st')) = (drawn (_rand (t_this st)) + Z.to_nat nbits)%nat /\
    (forall n, filled (t_this st) n -> filled (t_this st') (Datatypes.S n)) /\
    bset_wf (t_rbits st') /\
    length (t_trace st') = (length (t_trace st) + 2)%nat.
Proof.
  intros Hcons Hrb. unfold trial.
  destruct (setRandom_bits model eff pur (t_this st) (t_rbits st))
    as (obs & Hrun & _ & Hobs).
  rewrite Hrun. specialize (Hobs Hrb).
  set (that := after_draws (Z.to_nat nbits) (t_this st)).
  destruct (after_draws_rand (Z.to_nat nbits) (t_this st)) as [Hs Hd].
  destruct (after_draws_frame (Z.to_nat nbits) (t_this st)) as (Hlib & Hhist).
  fold that in Hs, Hd, Hlib, Hhist.
  destruct (search_in_range that obs (consistent_same _ _ Hlib Hcons) Hobs)
    as (imod & bover & bits & lam & pha & wid & Hsearch & _ & Hlam & Hpha & Hwid).
  rewrite Hsearch, Hlam, Hpha, Hwid.
  eexists. split; [reflexivity|]. cbn [t_this t_rbits t_trace].
  split; [exact (same_library_trans _ _ _ Hlib (same_library_fill that _ _ _ _ _ _))|].
  rewrite fill_histograms_rand.
  split; [exact Hs|]. split; [exact Hd|]. split; [|split; [exact Hobs|]].
  - intros n Hf. apply fill_histograms_filled. exact (filled_same _ _ n Hhist Hf).
  - rewrite length_app. reflexivity.
Qed.

(** X10: on an object in the state the constructor leaves and for
    parameters that [badParams] accepts, [test] runs to its end and returns
    0 for any number of trials: no vector is read out of range. It leaves the
    library as it was, consumes [nbits] draws for the first noisy profile and
    [nbits] for every trial, fills each of the six histograms once per trial
    after resetting them, and records eight events plus two per trial. *)
Theorem test_completes (this : SquareWaveFitTest) (clock : Z -> Z)
        (lambda phase width eff pur : float) (ntrials : Z) :
  consistent this ->
  badParams this lambda phase width = false ->
  0 <= ntrials ->
  exists that trace,
    test this clock lambda phase width eff pur ntrials = Some (0, that, trace) /\
    same_library this that /\
    stream (_rand that) = stream (_rand this) /\
    Z.of_nat (drawn (_rand that)) = Z.of_nat (drawn (_rand this)) + nbits * (ntrials + 1) /\
    filled that (Z.to_nat ntrials) /\
    Z.of_nat (length trace) = 8 + 2 * ntrials.
Proof.
  intros Hcons Hgood Hn. unfold test. rewrite Hgood, setbits_encode.
  set (model := encode lambda phase width).
  destruct (search_in_range this model Hcons (encode_wf lambda phase width))
    as (imod & bover & bits & _ & _ & _ & Hsearch & Hbits & _).
  rewrite Hsearch, Hbits.
  destruct (setRandom_bits model eff pur this bset_zero) as (rbits & Hrun & _ & Hrb).
  rewrite Hrun. specialize (Hrb bset_wf_zero).
  set (noisy := after_draws (Z.to_nat nbits) this).
  destruct (after_draws_rand (Z.to_nat nbits) this) as [Hs Hd].
  destruct (after_draws_frame (Z.to_nat nbits) this) as (Hlib & _).
  fold noisy in Hs, Hd, Hlib.
  assert (Hcons' : consistent noisy) by exact (consistent_same _ _ Hlib Hcons).
  destruct (search_in_range noisy rbits Hcons' Hrb)
    as (imod' & bover' & bits' & _ & _ & _ & Hsearch' & Hbits' & _).
  rewrite Hsearch', Hbits'. cbv zeta.
  match goal with
  | |- context [for_loop 0 ntrials ?b ?s0] =>
      destruct (for_loop_invariant b
                  (fun j st =>
                     same_library this (t_this st) /\
                     stream (_rand (t_this st)) = stream (_rand this) /\
                     Z.of_nat (drawn (_rand (t_this st))) =
                       Z.of_nat (drawn (_rand this)) + nbits * (j + 1) /\
                     filled (t_this st) (Z.to_nat j) /\
                     bset_wf (t_rbits st) /\
                     Z.of_nat (length (t_trace st)) = 8 + 2 * j)
                  0 ntrials s0 Hn)
        as (st & Hloop & Hl & Hst & Hdr & Hf & _ & Htr)
  end.
  - cbn [t_this t_rbits t_trace].
    split; [exact (same_library_trans _ _ _ Hlib (same_library_reset noisy))|].
    rewrite reset_histograms_rand.
    split; [exact Hs|]. split; [|split; [|split; [exact Hrb | reflexivity]]].
    + rewrite Hd. unfold nbits. lia.
    + apply reset_histograms_filled.
  - intros j st Hj (Hl & Hst & Hdr & Hf & Hw & Htr).
    destruct (trial_runs clock model eff pur j st (consistent_same _ _ Hl Hcons) Hw)
      as (st' & Hstep & Hl' & Hst' & Hdr' & Hf' & Hw' & Htr').
    exists st'. split; [exact Hstep|].
    split; [exact (same_library_trans _ _ _ Hl Hl')|].
    split; [congruence|]. split; [|split; [|split; [exact Hw'|]]].
    + rewrite Hdr'. unfold nbits in *. lia.
    + replace (Z.to_nat (j + 1)) with (Datatypes.S (Z.to_nat j)) by lia. now apply Hf'.
    + rewrite Htr'. lia.
  - rewrite Hloop. exists (t_this st), (t_trace st).
    split; [reflexivity|]. split; [exact Hl|]. split; [exact Hst|].
    split; [exact Hdr|]. split; [exact Hf | exact Htr].
Qed.

Lemma test_completes_witness :
  let this := push_all (init_members (constant_generator d_half))
                       [(7, f_zero, f_zero, f_zero); (1, f_one, f_zero, f_one)] in
  consistent this /\
  badParams this lambda_min f_zero width_min = false /\
  0 <= 3 /\
  exists that trace,
    test this (fun _ => 7) lambda_min f_zero width_min f_one f_one 3 = Some (0, that, trace) /\
    same_library this that /\
    stream (_rand that) = stream (_rand this) /\
    Z.of_nat (drawn (_rand that)) = Z.of_nat (drawn (_rand this)) + nbits * (3 + 1) /\
    filled that (Z.to_nat 3) /\
    Z.of_nat (length trace) = 8 + 2 * 3.
Proof.
  intros this.
  assert (Hcons : consistent this).
  { unfold consistent. cbn. repeat split; try discriminate.
    repeat constructor; unfold nbits; lia. }
  assert (Hgood : badParams this lambda_min f_zero width_min = false)
    by (vm_compute; reflexivity).
  assert (Hn : 0 <= 3) by lia.
  split; [exact Hcons|]. split; [exact Hgood|]. split; [exact Hn|].
  exact (test_completes this (fun _ => 7) lambda_min f_zero width_min f_one f_one 3
                        Hcons Hgood Hn).
Defined.

Lemma trial_keeps_library (clock : Z -> Z) (model : bset) (eff pur : float)
      (this : SquareWaveFitTest) (j : Z) (st st' : trial_state) :
  same_library this (t_this st) ->
  trial clock model eff pur j st = Some st' ->
  same_library this (t_this st').
Proof.
  intros Hl. unfold trial.
  destruct (setRandom_bits model eff pur (t_this st) (t_rbits st)) as (obs & -> & _).
  destruct (after_draws_frame (Z.to_nat nbits) (t_this st)) as (Hlib & _).
  set (that := after_draws (Z.to_nat nbits) (t_this st)) in *.
  destruct (bestOverlap that obs) as [[imod bover]|]; [|discriminate].
  destruct (vector_at (_lvec that) imod); [|discriminate].
  destruct (vector_at (_p0vec that) imod); [|discriminate].
  destruct (vector_at (_fvec that) imod); [|discriminate].
  intros H. apply Some_inj in H. subst st'. cbn [t_this].
  exact (same_library_trans _ _ _ Hl
           (same_library_trans _ _ _ Hlib (same_library_fill that _ _ _ _ _ _))).
Qed.

(** X11: [test] never changes the library: whatever the object, the
    parameters and the number of trials, when [test] returns, the four
    vectors and [_fnbits] are what they were on entry. *)
Theorem test_keeps_library (this that : SquareWaveFitTest) (clock : Z -> Z)
        (lambda phase width eff pur : float) (ntrials result : Z) (trace : list event) :
  test this clock lambda phase width eff pur ntrials = Some (result, that, trace) ->
  same_library this that.
Proof.
  unfold test. destruct (badParams this lambda phase width).
  - intros H. apply Some_inj in H. injection H as _ <- _. apply same_library_refl.
  - rewrite setbits_encode.
    destruct (bestOverlap this (encode lambda phase width)) as [[imod bover]|];
      [|discriminate].
    destruct (vector_at (_bitmodels this) imod); [|discriminate].
    destruct (setRandom_bits (encode lambda phase width) eff pur this bset_zero)
      as (rbits & -> & _).
    destruct (after_draws_frame (Z.to_nat nbits) this) as (Hlib & _).
    set (noisy := after_draws (Z.to_nat nbits) this) in *.
    destruct (bestOverlap noisy rbits) as [[imod' bover']|]; [|discriminate].
    destruct (vector_at (_bitmodels noisy) imod'); [|discriminate].
    cbv zeta.
    match goal with
    | |- context [for_loop 0 ntrials ?b ?s0] =>
        destruct (for_loop 0 ntrials b s0) as [st|] eqn:Hloop; [|discriminate]
    end.
    intros H. apply Some_inj in H. injection H as _ <- _.
    apply (for_loop_preserved _ (fun st => same_library this (t_this st))
             (trial_keeps_library clock _ eff pur this)) in Hloop; [exact Hloop|].
    cbn [t_this].
    exact (same_library_trans _ _ _ Hlib (same_library_reset noisy)).
Qed.

Lemma test_keeps_library_witness :
  test fresh (fun _ => 0) f_one f_zero f_zero f_one f_one 10
  = Some (-1, fresh, [Cout_illegal_values]) /\
  same_library fresh fresh.
Proof.
  split; [reflexivity|].
  apply (test_keeps_library fresh fresh (fun _ => 0) f_one f_zero f_zero f_one f_one 10
                            (-1) [Cout_illegal_values]).
  reflexivity.
Defined.

(** X12: on an object whose library is empty, [test] with parameters that
    [badParams] accepts has no defined result: the search returns index 0
    and [test] then reads [_bitmodels[0]] past the end of the empty vector. *)
Theorem test_on_empty_library (this : SquareWaveFitTest) (clock : Z -> Z)
        (lambda phase width eff pur : float) (ntrials : Z) :
  _bitmodels this = [] ->
  badParams this lambda phase width = false ->
  bestOverlap this (encode lambda phase width) = Some (0, nbits) /\
  vector_at (_bitmodels this) 0 = None /\
  test this clock lambda phase width eff pur ntrials = None.
Proof.
  intros Hempty Hgood.
  assert (Hsearch : bestOverlap this (encode lambda phase width) = Some (0, nbits))
    by (unfold bestOverlap; rewrite Hempty; reflexivity).
  assert (Hread : vector_at (_bitmodels this) 0 = None) by (rewrite Hempty; reflexivity).
  split; [exact Hsearch|]. split; [exact Hread|].
  unfold test. rewrite Hgood, setbits_encode, Hsearch, Hread. reflexivity.
Qed.

Lemma test_on_empty_library_witness :
  _bitmodels fresh = [] /\
  badParams fresh lambda_min f_zero width_min = false /\
  test fresh (fun _ => 0) lambda_min f_zero width_min f_one f_one 1 = None.
Proof.
  split; [reflexivity|].
  assert (Hgood : badParams fresh lambda_min f_zero width_min = false)
    by (vm_compute; reflexivity).
  split; [exact Hgood|].
  exact (proj2 (proj2 (test_on_empty_library fresh (fun _ => 0) lambda_min f_zero
                                             width_min f_one f_one 1 eq_refl Hgood))).
Defined.
